(** * The arrangement facade of libslic3r (src/libslic3r/Arrange.cpp)

    A shallow embedding of [Arrange.cpp]: the [AutoArranger] wrapper around
    libnest2d's [Nester] with its two spatial indices and its objective
    function, the bed-shape classifier [bedShape], the generic [_arrange]
    with its fixed-item preload and warm start, and the client function
    [arrange].

    Conventions.
    - [coord_t], [clppr::cInt] and [TCoord] are 64-bit signed integers; they
      are modelled by [Z], with C++'s truncating [/] and [%] written
      [Z.quot] and [Z.rem].  Signed overflow is undefined in C++, so the
      model speaks about coordinates whose sums and products stay in range.
    - [double] is IEEE 754 binary64, modelled by Rocq's primitive [float];
      [std::sqrt], [std::abs], [<], [+], [*], [/] are the primitive
      operations.  Floating-point contraction (fused multiply-add) is not
      modelled.
    - [std::vector] is [list]; the boost R-tree is the list of its elements,
      a query is a [filter].
    - What [Arrange.cpp] calls but does not define (libnest2d's geometry,
      libslic3r's scalar helpers, libnest2d's selection and placement
      engine) is a parameter: the classes [Libnest2d] and [Libslic3r] and
      the record [Nester].  Module [Reference] instantiates the classes for
      the evaluations on concrete inputs. *)

From Stdlib Require Import ZArith List Bool Lia PeanoNat Floats Uint63 Permutation.
Import ListNotations.

Set Warnings "-inexact-float".
Local Open Scope Z_scope.

(** ** Scalars *)

Definition double := float.

(** [static_cast<double>(coord_t)]: round to nearest, ties to even.  A
    negative value is converted by its magnitude; the magnitude of the
    least [coord_t], 2^63, is no 63-bit integer and is given as the double
    it is. *)
Definition of_coord (z : Z) : double :=
  if z <? 0
  then PrimFloat.opp (if - z <? 2 ^ 63
                      then PrimFloat.of_uint63 (Uint63.of_Z (- z))
                      else 0x1p63%float)
  else PrimFloat.of_uint63 (Uint63.of_Z z).

(** The implicit conversion [double -> coord_t]: truncation toward zero.
    Converting an infinity or a NaN is undefined in C++; the model gives 0. *)
Definition to_coord (d : double) : Z :=
  match Prim2SF d with
  | S754_finite s m e =>
      let v := if 0 <=? e then Z.pos m * 2 ^ e else Z.pos m / 2 ^ (- e) in
      if s then - v else v
  | _ => 0
  end.

(** [std::isnan]. *)
Definition isnan (d : double) : bool := negb (PrimFloat.eqb d d).

(** [a > b] on doubles. *)
Definition dgt (a b : double) : bool := PrimFloat.ltb b a.

(** [*std::min_element(first, last)] over doubles: the first smallest
    element under [<]. *)
Definition dmin (a b : double) : double := if PrimFloat.ltb b a then b else a.

Definition min_element (d0 : double) (ds : list double) : double :=
  fold_left dmin ds d0.

(** ** Geometry data *)

(** [ClipperLib::IntPoint]; [Slic3r::Point] and [Vec2crd] are the same pair
    of [coord_t]. *)
Record IntPoint := mkPoint { X : Z; Y : Z }.

Definition Point := IntPoint.
Definition Vec2crd := IntPoint.

Definition point_sub (a b : IntPoint) : IntPoint :=
  mkPoint (X a - X b) (Y a - Y b).

Definition point_add (a b : IntPoint) : IntPoint :=
  mkPoint (X a + X b) (Y a + Y b).

(** [libnest2d::_Box<IntPoint>]. *)
Record Box := mkBox { minCorner : IntPoint; maxCorner : IntPoint }.

(** [libnest2d::_Circle<IntPoint>]. *)
Record Circle := mkCircle { circle_center : IntPoint; circle_radius : double }.

(** [ClipperLib::Polygon]: an outer contour and holes. *)
Record ClipperPolygon := mkClipperPolygon {
  Contour : list IntPoint;
  Holes : list (list IntPoint)
}.

Definition MultiPolygon := list ClipperPolygon.

(** The bin type [TBin] the templates [AutoArranger] and [_arrange] are
    instantiated at: [Box], [Circle] or [clppr::Polygon]. *)
Inductive Bin :=
| BinBox (b : Box)
| BinCircle (c : Circle)
| BinPolygon (p : ClipperPolygon).

(** [Slic3r::Polygon] and [Slic3r::Polyline]: their [points]. *)
Definition Polygon := list Point.
Definition Polyline := list Point.

(** [Slic3r::BoundingBox]. *)
Record BoundingBox := mkBoundingBox { bb_min : Point; bb_max : Point }.

(** [CircleBed], declared in Arrange.hpp.  [bedShape] builds one from a
    centre and a radius, resets it with [CircleBed()], and branches on its
    conversion to [bool]: the default-constructed bed has a NaN radius and
    the conversion tests that the radius is a number. *)
Record CircleBed := mkCircleBed { center_ : Point; radius_ : double }.

Definition CircleBed_default : CircleBed := mkCircleBed (mkPoint 0 0) PrimFloat.nan.

Definition CircleBed_bool (c : CircleBed) : bool := negb (isnan (radius_ c)).

Record InfiniteBed := mkInfiniteBed { infinite_center : Point }.

Inductive BedShapeType := BOX | CIRCLE | IRREGULAR | INFINITE | UNKNOWN.

(** [BedShapeHint::shape], declared in Arrange.hpp: the members that
    [Arrange.cpp] reads and writes, [shape.circ], [shape.box],
    [shape.polygon] and [shape.infinite]. *)
Record BedShapes := mkBedShapes {
  circ : CircleBed;
  box : BoundingBox;
  polygon : Polyline;
  infinite : InfiniteBed
}.

Record BedShapeHint := mkBedShapeHint { type : BedShapeType; shape : BedShapes }.

(** ** Arrangeables and items *)

(** An [Arrangeable*]: the address identifies the host object;
    [get_arrange_polygon] is what its const getter returns. *)
Record Arrangeable := mkArrangeable {
  address : nat;
  get_arrange_polygon : Polygon * Vec2crd * double
}.

(** The one function object [arrange] stores in an item: the lambda
    [[arrangeable, &binwidth](const Item &itm, unsigned binidx)]. *)
Inductive ApplyFn := ApplyResultTo (arrangeable : Arrangeable).

(** Modelled from the spec: [libnest2d::_Item<clppr::Polygon>], which is
    not part of this file.  A part has its source contour, a mutable
    translation and rotation and a fixed flag (spec 3), and the apply
    callback of its handle (spec 4.6), empty for a null [std::function]. *)
Record Item := mkItem {
  applyfn_ : option ApplyFn;
  sh_ : ClipperPolygon;
  rotation_ : double;
  translation_ : IntPoint;
  fixed_ : bool
}.

Definition ItemGroup := list Item.

(** Modelled from the spec: the mutators of a part (spec 3),
    [Item::rotation(r)], [Item::translation(t)], [Item::translate(d)] (the
    translation moves by [d]) and [Item::markAsFixed()]. *)
Definition set_rotation (r : double) (i : Item) : Item :=
  mkItem (applyfn_ i) (sh_ i) r (translation_ i) (fixed_ i).

Definition set_translation (t : IntPoint) (i : Item) : Item :=
  mkItem (applyfn_ i) (sh_ i) (rotation_ i) t (fixed_ i).

Definition translate (d : IntPoint) (i : Item) : Item :=
  set_translation (point_add (translation_ i) d) i.

Definition markAsFixed (i : Item) : Item :=
  mkItem (applyfn_ i) (sh_ i) (rotation_ i) (translation_ i) true.

(** ** What libnest2d provides *)

(** The geometry of libnest2d's clipper backend that [Arrange.cpp] calls:
    [sl::] is shapelike, [pl::] is pointlike. *)
Class Libnest2d := {
  sl_area : Bin -> double;
  sl_boundingBox_bin : Bin -> Box;
  sl_boundingBox_pile : MultiPolygon -> Box;
  sl_boundingBox : Box -> Box -> Box;
  sl_isInside : ClipperPolygon -> Bin -> bool;
  sl_convexHull : MultiPolygon -> ClipperPolygon;
  pl_distance : IntPoint -> IntPoint -> double;
  Box_default : Box;
  Box_infinite : IntPoint -> Box;
  Box_center : Box -> IntPoint;
  Box_width : Box -> Z;
  Box_height : Box -> Z;
  Box_area : Box -> double;
  Item_boundingBox : Item -> Box;
  Item_area : Item -> double;
  Item_transformedShape : Item -> ClipperPolygon;
  EdgeCache_circumference : ClipperPolygon -> double;
  Placer_overfit_box : Box -> Bin -> double;
  Placer_overfit_hull : ClipperPolygon -> Bin -> double
}.

(** ** The spatial index

    [boost::geometry::index::rtree] over pairs of a box and a part index,
    as the list of its elements. *)

Definition SpatElement := (Box * nat)%type.
Definition SpatIndex := list SpatElement.

Definition rtree_insert (e : SpatElement) (t : SpatIndex) : SpatIndex := t ++ [e].

Definition rtree_empty (t : SpatIndex) : bool :=
  match t with [] => true | _ => false end.

(** [bgi::intersects(b)] on boxes: closed intervals that meet on both axes. *)
Definition bgi_intersects (b a : Box) : bool :=
  (X (minCorner a) <=? X (maxCorner b)) && (X (minCorner b) <=? X (maxCorner a)) &&
  (Y (minCorner a) <=? Y (maxCorner b)) && (Y (minCorner b) <=? Y (maxCorner a)).

Definition rtree_query (b : Box) (t : SpatIndex) : list SpatElement :=
  filter (fun e => bgi_intersects b (fst e)) t.

(** [spatindex.bounds()] converted to a [Box]: the hull of the stored boxes
    (read only when the index is not empty). *)
Definition box_hull (a b : Box) : Box :=
  mkBox (mkPoint (Z.min (X (minCorner a)) (X (minCorner b)))
                 (Z.min (Y (minCorner a)) (Y (minCorner b))))
        (mkPoint (Z.max (X (maxCorner a)) (X (maxCorner b)))
                 (Z.max (Y (maxCorner a)) (Y (maxCorner b)))).

Definition rtree_bounds (t : SpatIndex) : Box :=
  match t with
  | [] => mkBox (mkPoint 0 0) (mkPoint 0 0)
  | e :: t' => fold_left (fun acc e' => box_hull acc (fst e')) t' (fst e)
  end.

(** The part indices an index stores. *)
Definition indices (t : SpatIndex) : list nat := map snd t.

(** ** The placer configuration and the packer *)

(** [PConfig::Alignment]: the two enumerators the file uses. *)
Inductive Alignment := CENTER | DONT_ALIGN.

(** The closures stored in [PConfig::object_function]: the three
    specialisations of [get_objfn] (each captures [bincenter]) and the
    lambda of [preload] (capturing [bb] and [bbcenter]).  All of them
    capture [this] and read the arranger when they are called. *)
Inductive ObjectFunction :=
| ObjFn_Box (bincenter : IntPoint)
| ObjFn_Circle (bincenter : IntPoint)
| ObjFn_Polygon (bincenter : IntPoint)
| ObjFn_preload (bb : Box) (bbcenter : IntPoint).

Record PConfig := mkPConfig {
  alignment : Alignment;
  starting_point : Alignment;
  rotations : list double;
  accuracy : double;
  parallel : bool;
  object_function : option ObjectFunction
}.

(** [std::function<void(unsigned)>] and [std::function<bool()>].  The stop
    predicate is stateful: [f n] is its answer when it is polled after [n]
    earlier polls. *)
Inductive ProgressFn := ProgressIndicator (id : nat).
Definition StopFn := nat -> bool.

(** [Nester<Placer, Selector>]: the bin and the distance it was built with
    and what was handed to it afterwards. *)
Record Packer := mkPacker {
  pck_bin : Bin;
  pck_dist : Z;
  pck_progress : option ProgressFn;
  pck_stop : option StopFn;
  pck_conf : option PConfig
}.

Definition BIG_ITEM_TRESHOLD : double := 0.02%float.

(** [fillConfig], on the fields it assigns; [0.65f] is a binary32 literal. *)
Definition fillConfig (pcfg : PConfig) : PConfig :=
  mkPConfig CENTER CENTER [0.0%float] 0x1.4cccccp-1%float true (object_function pcfg).

Record AutoArranger := mkAutoArranger {
  m_pck : Packer;
  m_pconf : PConfig;
  m_bin : Bin;
  m_bin_area : double;
  m_rtree : SpatIndex;
  m_smallsrtree : SpatIndex;
  m_norm : double;
  m_merged_pile : MultiPolygon;
  m_pilebb : Box;
  m_remaining : ItemGroup;
  m_items : ItemGroup
}.

Definition set_rtree (t : SpatIndex) (a : AutoArranger) : AutoArranger :=
  mkAutoArranger (m_pck a) (m_pconf a) (m_bin a) (m_bin_area a) t (m_smallsrtree a)
    (m_norm a) (m_merged_pile a) (m_pilebb a) (m_remaining a) (m_items a).

Definition configure (c : PConfig) (p : Packer) : Packer :=
  mkPacker (pck_bin p) (pck_dist p) (pck_progress p) (pck_stop p) (Some c).

Inductive e_cases := BIG_ITEM | LAST_BIG_ITEM | SMALL_ITEM.

Section AutoArrangerClass.
Context {nest2d : Libnest2d}.

Local Open Scope float_scope.

(** The lambda [isBig] of [objfunc] and [before_packing]. *)
Definition isBig (bin_area a : double) : bool := dgt (a / bin_area) BIG_ITEM_TRESHOLD.

(** The alignment loop of [objfunc]: [for (auto& e : result)].  Indexing
    [m_items] out of range is undefined; the model answers [None]. *)
Fixpoint alignment_loop (items : ItemGroup) (item : Item) (ibb : Box)
  (result : list SpatElement) (alignment_score : double) : option double :=
  match result with
  | [] => Some alignment_score
  | e :: rest =>
      match nth_error items (snd e) with
      | None => None
      | Some p =>
          let parea := Item_area p in
          if PrimFloat.abs (1.0 - parea / Item_area item) <? 1e-6 then
            let bb := sl_boundingBox (Item_boundingBox p) ibb in
            let bbarea := Box_area bb in
            let ascore := 1.0 - (Item_area item + parea) / bbarea in
            alignment_loop items item ibb rest
              (if ascore <? alignment_score then ascore else alignment_score)
          else alignment_loop items item ibb rest alignment_score
      end
  end.

Definition compute_case (bigitems remaining_empty : bool) : e_cases :=
  if bigitems && negb remaining_empty then BIG_ITEM
  else if bigitems && remaining_empty then LAST_BIG_ITEM
  else SMALL_ITEM.

(** [AutoArranger::objfunc]. *)
Definition objfunc (a : AutoArranger) (item : Item) (bincenter : IntPoint)
  : option (double * Box) :=
  let bin_area := m_bin_area a in
  let spatindex := m_rtree a in
  let smalls_spatindex := m_smallsrtree a in
  let remaining := m_remaining a in
  let ibb := Item_boundingBox item in
  let fullbb := sl_boundingBox (m_pilebb a) ibb in
  let bigbb := if rtree_empty spatindex then fullbb else rtree_bounds spatindex in
  let N := m_norm a in
  let norm := fun val : double => val / N in
  let bigitems := isBig bin_area (Item_area item) || rtree_empty spatindex in
  match compute_case bigitems (match remaining with [] => true | _ => false end) with
  | BIG_ITEM =>
      let minc := minCorner ibb in
      let maxc := maxCorner ibb in
      let top_left := mkPoint (X minc) (Y maxc) in
      let bottom_right := mkPoint (X maxc) (Y minc) in
      let cc := Box_center fullbb in
      let dist := norm (min_element (pl_distance minc cc)
                          [pl_distance maxc cc;
                           pl_distance (Box_center ibb) cc;
                           pl_distance top_left cc;
                           pl_distance bottom_right cc]) in
      let bindist := norm (pl_distance (Box_center ibb) bincenter) in
      let dist := 0.8 * dist + 0.2 * bindist in
      let index := if isBig bin_area (Item_area item) then spatindex else smalls_spatindex in
      let result := rtree_query ibb index in
      match alignment_loop (m_items a) item ibb result 1.0 with
      | None => None
      | Some alignment_score =>
          let density := PrimFloat.sqrt (norm (of_coord (Box_width fullbb)) *
                               norm (of_coord (Box_height fullbb))) in
          let score :=
            match result with
            | [] => 0.5 * dist + 0.5 * density
            | _ => 0.40 * dist + 0.40 * density + 0.2 * alignment_score
            end in
          Some (score, fullbb)
      end
  | LAST_BIG_ITEM =>
      let mp := m_merged_pile a ++ [Item_transformedShape item] in
      let chull := sl_convexHull mp in
      let circ := norm (EdgeCache_circumference chull) in
      let bcirc := 2.0 * norm (of_coord (Box_width fullbb + Box_height fullbb)%Z) in
      Some (0.5 * circ + 0.5 * bcirc, fullbb)
  | SMALL_ITEM =>
      Some (norm (pl_distance (Box_center ibb) (Box_center bigbb)), fullbb)
  end.

(** [fixed_overfit]: the penalty used after [preload]. *)
Definition fixed_overfit (result : double * Box) (binbb : Box) : double :=
  let score := fst result in
  let pilebb := snd result in
  let fullbb := sl_boundingBox pilebb binbb in
  let diff := Box_area fullbb - Box_area binbb in
  if dgt diff 0 then score + diff else score.

(** Calling the stored object function on the arranger [a]. *)
Definition call_object_function (a : AutoArranger) (f : ObjectFunction) (item : Item)
  : option double :=
  match f with
  | ObjFn_Box bincenter =>
      match objfunc a item bincenter with
      | None => None
      | Some (score, fullbb) =>
          let miss := Placer_overfit_box fullbb (m_bin a) in
          let miss := if dgt miss 0 then miss else 0 in
          Some (score + miss * miss)
      end
  | ObjFn_Circle bincenter =>
      match objfunc a item bincenter with
      | None => None
      | Some (score, _) =>
          if isBig (m_bin_area a) (Item_area item) then
            let mp := m_merged_pile a ++ [Item_transformedShape item] in
            let chull := sl_convexHull mp in
            let miss := Placer_overfit_hull chull (m_bin a) in
            let miss := if miss <? 0 then 0 else miss in
            Some (score + miss * miss)
          else Some score
      end
  | ObjFn_Polygon bincenter =>
      match objfunc a item bincenter with
      | None => None
      | Some (score, _) => Some score
      end
  | ObjFn_preload bb bbcenter =>
      match objfunc a item bbcenter with
      | None => None
      | Some r => Some (fixed_overfit r bb)
      end
  end.

(** The three specialisations of [get_objfn]. *)
Definition get_objfn (bin : Bin) : ObjectFunction :=
  match bin with
  | BinBox b => ObjFn_Box (Box_center b)
  | BinCircle c => ObjFn_Circle (circle_center c)
  | BinPolygon _ => ObjFn_Polygon (Box_center (sl_boundingBox_bin bin))
  end.

(** The constructor [AutoArranger(bin, dist, progressind, stopcond)]. *)
Definition AutoArranger_ctor (bin : Bin) (dist : Z)
  (progressind : option ProgressFn) (stopcond : option StopFn) : AutoArranger :=
  let bin_area := sl_area bin in
  let pconf := fillConfig (mkPConfig CENTER CENTER [] 0 false None) in
  let pconf := mkPConfig (alignment pconf) (starting_point pconf) (rotations pconf)
                 (accuracy pconf) (parallel pconf) (Some (get_objfn bin)) in
  mkAutoArranger
    (mkPacker bin dist progressind stopcond (Some pconf))
    pconf bin bin_area [] [] (PrimFloat.sqrt bin_area) [] Box_default [] [].

(** The loop of the [before_packing] callback:
    [for (unsigned idx = 0; idx < items.size(); ++idx)]. *)
Fixpoint index_items (bin_area : double) (idx : nat) (items : list Item)
  (rtree smallsrtree : SpatIndex) : SpatIndex * SpatIndex :=
  match items with
  | [] => (rtree, smallsrtree)
  | itm :: rest =>
      let rtree := if isBig bin_area (Item_area itm)
                   then rtree_insert (Item_boundingBox itm, idx) rtree
                   else rtree in
      let smallsrtree := rtree_insert (Item_boundingBox itm, idx) smallsrtree in
      index_items bin_area (S idx) rest rtree smallsrtree
  end.

(** The callback [m_pconf.before_packing] the constructor installs. *)
Definition before_packing (a : AutoArranger) (merged_pile : MultiPolygon)
  (items remaining : ItemGroup) : AutoArranger :=
  let '(rtree, smallsrtree) := index_items (m_bin_area a) 0 items [] [] in
  mkAutoArranger (m_pck a) (m_pconf a) (m_bin a) (m_bin_area a) rtree smallsrtree
    (m_norm a) merged_pile (sl_boundingBox_pile merged_pile) remaining items.

(** The loop of [preload]: every fixed item is marked and its box is
    inserted into [m_rtree] under its position in [fixeditems]. *)
Fixpoint preload_loop (idx : nat) (fixeditems : list Item) (rtree : SpatIndex)
  : list Item * SpatIndex :=
  match fixeditems with
  | [] => ([], rtree)
  | itm :: rest =>
      let itm := markAsFixed itm in
      let rtree := rtree_insert (Item_boundingBox itm, idx) rtree in
      let '(rest', rtree') := preload_loop (S idx) rest rtree in
      (itm :: rest', rtree')
  end.

(** [AutoArranger::preload]; [fixeditems] is taken by reference, so the
    marked items are returned with the arranger. *)
Definition preload (a : AutoArranger) (fixeditems : list Item)
  : AutoArranger * list Item :=
  let bb := sl_boundingBox_bin (m_bin a) in
  let bbcenter := Box_center bb in
  let pconf := mkPConfig DONT_ALIGN (starting_point (m_pconf a)) (rotations (m_pconf a))
                 (accuracy (m_pconf a)) (parallel (m_pconf a))
                 (Some (ObjFn_preload bb bbcenter)) in
  let '(fixeditems', rtree) := preload_loop 0 fixeditems (m_rtree a) in
  (mkAutoArranger (configure pconf (m_pck a)) pconf (m_bin a) (m_bin_area a) rtree
     (m_smallsrtree a) (m_norm a) (m_merged_pile a) (m_pilebb a) (m_remaining a)
     (m_items a),
   fixeditems').

(** [AutoArranger::is_colliding]. *)
Definition is_colliding (a : AutoArranger) (item : Item) : bool :=
  if rtree_empty (m_rtree a) then false
  else negb (match rtree_query (Item_boundingBox item) (m_rtree a) with
             | [] => true
             | _ => false
             end).

End AutoArrangerClass.

(** ** What libslic3r provides *)

(** The helpers of libslic3r that [Arrange.cpp] calls: the macro
    [SCALED_EPSILON] (a [double] expression), the scalar [unscaled],
    [Polygon::area] (signed), [Polygon::is_counter_clockwise],
    [Polyline::bounding_box], [BoundingBox::center],
    [Slic3rMultiPoint_to_ClipperPath] and the default-constructed
    [BedShapeHint]. *)
Class Libslic3r := {
  SCALED_EPSILON : double;
  unscaled : Z -> double;
  Polygon_area : Polygon -> double;
  is_counter_clockwise : Polygon -> bool;
  bounding_box : Polyline -> BoundingBox;
  BoundingBox_center : BoundingBox -> Point;
  Slic3rMultiPoint_to_ClipperPath : Polygon -> list IntPoint;
  BedShapeHint_default : BedShapeHint
}.

(** [to_lnCircle]. *)
Definition to_lnCircle (c : CircleBed) : Circle :=
  mkCircle (mkPoint (X (center_ c)) (Y (center_ c))) (radius_ c).

(** [stride_padding]: [w + w / 5] on [coord_t], a 64-bit integer whose
    division truncates toward zero.  The sum is written in [Z]: it is the
    value of the C++ expression while it fits [coord_t], that is for
    [|w| <= 7686143364045646506]; beyond that the C++ addition overflows. *)
Definition stride_padding (w : Z) : Z := w + Z.quot w 5.

Section BedShape.
Context {slic3r : Libslic3r}.

Local Open Scope float_scope.

(** The lambdas of [bedShape]. *)
Definition bb_width (b : BoundingBox) : Z := (X (bb_max b) - X (bb_min b))%Z.
Definition bb_height (b : BoundingBox) : Z := (Y (bb_max b) - Y (bb_min b))%Z.

Definition bb_area (b : BoundingBox) : double :=
  let w := of_coord (bb_width b) in
  let h := of_coord (bb_height b) in
  w * h.

(** [poly_area]: the polyline is closed with its front point;
    [front()] of an empty vector is undefined, the model answers [None]. *)
Definition poly_area (p : Polyline) : option double :=
  match p with
  | [] => None
  | front :: _ => Some (PrimFloat.abs (Polygon_area (p ++ [front])))
  end.

Definition distance_to (p1 p2 : Point) : double :=
  let dx := of_coord (X p2 - X p1)%Z in
  let dy := of_coord (Y p2 - Y p1)%Z in
  PrimFloat.sqrt (dx * dx + dy * dy).

(** The distances [isCircle] collects and their mean [avg_dist]. *)
Definition vertex_distances (bb : BoundingBox) (polygon : Polyline) : list double :=
  map (fun pt => distance_to (BoundingBox_center bb) pt) polygon.

Definition avg_dist (bb : BoundingBox) (polygon : Polyline) : double :=
  fold_left (fun acc distance => acc + distance) (vertex_distances bb polygon) 0
  / of_coord (Z.of_nat (length (vertex_distances bb polygon))).

(** The test of the second loop of [isCircle]. *)
Definition off_radius (avg el : double) : bool :=
  dgt (PrimFloat.abs (el - avg)) (10 * SCALED_EPSILON).

Definition isCircle (bb : BoundingBox) (polygon : Polyline) : CircleBed :=
  let center := BoundingBox_center bb in
  let avg := avg_dist bb polygon in
  if existsb (off_radius avg) (vertex_distances bb polygon)
  then CircleBed_default
  else mkCircleBed center avg.

Definition set_box (t : BedShapeType) (b : BoundingBox) (h : BedShapeHint) : BedShapeHint :=
  mkBedShapeHint t (mkBedShapes (circ (shape h)) b (polygon (shape h)) (infinite (shape h))).

Definition set_circ (t : BedShapeType) (c : CircleBed) (h : BedShapeHint) : BedShapeHint :=
  mkBedShapeHint t (mkBedShapes c (box (shape h)) (polygon (shape h)) (infinite (shape h))).

Definition set_polygon (t : BedShapeType) (p : Polyline) (h : BedShapeHint) : BedShapeHint :=
  mkBedShapeHint t (mkBedShapes (circ (shape h)) (box (shape h)) p (infinite (shape h))).

(** [bedShape]: the type of bed geometry from a vector of points. *)
Definition bedShape (bed : Polyline) : option BedShapeHint :=
  let ret := BedShapeHint_default in
  let bb := bounding_box bed in
  match poly_area bed with
  | None => None
  | Some parea =>
      if (1.0 - parea / bb_area bb) <? 1e-3 then Some (set_box BOX bb ret)
      else
        let c := isCircle bb bed in
        if CircleBed_bool c then Some (set_circ CIRCLE c ret)
        else Some (set_polygon IRREGULAR bed ret)
  end.

End BedShape.

(** ** Effects: the calls that leave the file *)

(** What an arrangement does to the outside, in order:
    [Arrangeable::apply_arrange_result] on a host object, and the run of
    libnest2d's [Nester] on an arranger and its input items. *)
Inductive Event :=
| ApplyArrangeResult (arrangeable : Arrangeable) (x y : double) (rotation : double)
| NesterExecute (arranger : AutoArranger) (inp : list Item).

(** The state threaded through [arrange]: its local [binwidth] (the
    apply lambdas hold a reference to it), how often the stop predicate has
    been polled, and the events so far. *)
Record World := mkWorld { binwidth : Z; polls : nat; trace : list Event }.

Definition emit (e : Event) (w : World) : World :=
  mkWorld (binwidth w) (polls w) (trace w ++ [e]).

(** One entry of a bin of the [PackGroup]: which input item, and the pose
    the placer gave it. *)
Record Placement := mkPlacement {
  placed_index : nat;
  placed_translation : IntPoint;
  placed_rotation : double
}.

(** libnest2d's selection and placement, taken as a parameter: from the
    configured arranger, the input items and the number of earlier polls of
    the stop predicate, the bins it fills and how often it polls. *)
Record Nester := mkNester {
  select_and_place : AutoArranger -> list Item -> nat -> list (list Placement) * nat
}.

Inductive Outcome :=
| Returned (ret : bool)
| Thrown_bad_function_call
| Undefined_behaviour.

Section Facade.
Context {nest2d : Libnest2d} {slic3r : Libslic3r}.

(** The body of the lambda [arrange] gives to every movable item. *)
Definition apply_result (arrangeable : Arrangeable) (itm : Item) (binidx : nat)
  (w : World) : World :=
  let stride := Z.of_nat binidx * stride_padding (binwidth w) in
  let offs := translation_ itm in
  emit (ApplyArrangeResult arrangeable (unscaled (X offs + stride)) (unscaled (Y offs))
          (rotation_ itm)) w.

(** Modelled from the spec: [Item::callApplyFunction(binidx)] of libnest2d,
    which is not part of this file.  The callback an item was registered
    with is invoked with the item and its bin index (spec 4.6); an item
    registered with a null function has nothing to invoke. *)
Definition callApplyFunction (itm : Item) (binidx : nat) (w : World) : World :=
  match applyfn_ itm with
  | None => w
  | Some (ApplyResultTo arrangeable) => apply_result arrangeable itm binidx w
  end.

Definition place (inp : list Item) (p : Placement) : option Item :=
  match nth_error inp (placed_index p) with
  | None => None
  | Some itm => Some (set_rotation (placed_rotation p)
                        (set_translation (placed_translation p) itm))
  end.

Fixpoint apply_bin (inp : list Item) (binidx : nat) (bin : list Placement) (w : World)
  : World :=
  match bin with
  | [] => w
  | p :: rest =>
      let w := match place inp p with
               | None => w
               | Some itm => callApplyFunction itm binidx w
               end in
      apply_bin inp binidx rest w
  end.

Fixpoint apply_bins (inp : list Item) (binidx : nat) (bins : list (list Placement))
  (w : World) : World :=
  match bins with
  | [] => w
  | bin :: rest => apply_bins inp (S binidx) rest (apply_bin inp binidx bin w)
  end.

(** Modelled from the spec: [Nester::execute] of libnest2d, which is not
    part of this file.  The engine fills a sequence of bins with (part
    index, translation, rotation) entries (spec 3, PackGroup), and every
    placed part's callback is invoked with its bin index (spec 4.6). *)
Definition Nester_execute (N : Nester) (a : AutoArranger) (inp : list Item) (w : World)
  : list (list Placement) * World :=
  let '(bins, n) := select_and_place N a inp (polls w) in
  let w := emit (NesterExecute a inp) w in
  let w := mkWorld (binwidth w) (polls w + n) (trace w) in
  (bins, apply_bins inp 0 bins w).

(** [AutoArranger::operator()]. *)
Definition AutoArranger_call (N : Nester) (a : AutoArranger) (inp : list Item) (w : World)
  : list (list Placement) * World :=
  Nester_execute N (set_rtree [] a) inp w.

(** The loop of [_arrange] that seats an item at the centre of the bin:
    [for (auto it = shapes.begin(); it != shapes.end(); ++it)]. *)
Fixpoint warm_start (arranger : AutoArranger) (binbb : Box) (shapes : list Item)
  (w : World) : list Item * World :=
  match shapes with
  | [] => ([], w)
  | itm :: rest =>
      let ibb := Item_boundingBox itm in
      let d := point_sub (Box_center binbb) (Box_center ibb) in
      let itm := translate d itm in
      if negb (is_colliding arranger itm) then
        let itm := markAsFixed itm in
        let w := callApplyFunction itm 0 w in
        (rest, w)
      else
        let '(rest', w') := warm_start arranger binbb rest w in
        (itm :: rest', w')
  end.

(** The erase loop of [_arrange] over [excludes]. *)
Definition erase_outside (bin : Bin) (excludes : list Item) : list Item :=
  filter (fun it => sl_isInside (Item_transformedShape it) bin) excludes.

(** [_arrange<BinT>]. *)
Definition _arrange (N : Nester) (shapes excludes : list Item) (bin : Bin) (minobjd : Z)
  (prind : option ProgressFn) (stopfn : option StopFn) (w : World)
  : list (list Placement) * World :=
  let arranger := AutoArranger_ctor bin minobjd prind stopfn in
  let excludes := erase_outside bin excludes in
  let '(arranger, shapes, excludes, w) :=
    match excludes with
    | [] => (arranger, shapes, excludes, w)
    | _ :: _ =>
        let '(arranger, excludes) := preload arranger excludes in
        let binbb := sl_boundingBox_bin bin in
        let '(shapes, w) := warm_start arranger binbb shapes w in
        (arranger, shapes, excludes, w)
    end in
  let inp := shapes ++ excludes in
  AutoArranger_call N arranger inp w.

(** The lambda [process_arrangeable]; [Contour.front()] of an empty path is
    undefined, the model answers [None]. *)
Definition process_arrangeable (arrangeable : Arrangeable) (outp : list Item)
  (applyfn : option ApplyFn) : option (list Item) :=
  let '(p, offs, rotation) := get_arrange_polygon arrangeable in
  let p := if is_counter_clockwise p then rev p else p in
  let clpath := Slic3rMultiPoint_to_ClipperPath p in
  match clpath with
  | [] => None
  | firstp :: _ =>
      let clpath := mkClipperPolygon (clpath ++ [firstp]) [] in
      Some (outp ++ [set_translation (mkPoint (X offs) (Y offs))
                       (set_rotation rotation
                          (mkItem applyfn clpath 0%float (mkPoint 0 0) false))])
  end.

(** [for (Arrangeable *arrangeable : arrangables)]: each with its lambda. *)
Fixpoint process_arrangables (arrangables : list Arrangeable) (items : list Item)
  : option (list Item) :=
  match arrangables with
  | [] => Some items
  | arrangeable :: rest =>
      match process_arrangeable arrangeable items (Some (ApplyResultTo arrangeable)) with
      | None => None
      | Some items => process_arrangables rest items
      end
  end.

(** [for (const Arrangeable * fixed: excludes)]: each with [nullptr]. *)
Fixpoint process_excludes (excludes : list Arrangeable) (fixeditems : list Item)
  : option (list Item) :=
  match excludes with
  | [] => Some fixeditems
  | fixed :: rest =>
      match process_arrangeable fixed fixeditems None with
      | None => None
      | Some fixeditems => process_excludes rest fixeditems
      end
  end.

(** [md = (md % 2) ? md / 2 + 1 : md / 2]. *)
Definition halve_up (md : Z) : Z :=
  if Z.rem md 2 =? 0 then Z.quot md 2 else Z.quot md 2 + 1.

(** The two statements that compute [md] in [arrange]. *)
Definition halved_distance (min_obj_distance : Z) : Z :=
  let md := to_coord (of_coord min_obj_distance - SCALED_EPSILON)%float in
  halve_up md.

(** The bin the [switch] of [arrange] builds: every case but [default] is
    commented out. *)
Definition arrange_bin (bedhint : BedShapeHint) : Bin :=
  match type bedhint with
  | BOX | CIRCLE | IRREGULAR | INFINITE | UNKNOWN =>
      BinBox (Box_infinite (mkPoint (X (BoundingBox_center (box (shape bedhint))))
                                    (Y (BoundingBox_center (box (shape bedhint))))))
  end.

(** [arrange], the client function with fixed items.  The result carries
    the world at the end: the events, in order. *)
Definition arrange (N : Nester) (arrangables excludes : list Arrangeable)
  (min_obj_distance : Z) (bedhint : BedShapeHint)
  (progressind : option ProgressFn) (stopcondition : option StopFn)
  : Outcome * World :=
  let ret := true in
  let w := mkWorld 0 0 [] in
  match process_arrangables arrangables [] with
  | None => (Undefined_behaviour, w)
  | Some items =>
      match process_excludes excludes [] with
      | None => (Undefined_behaviour, w)
      | Some fixeditems =>
          let md := halved_distance min_obj_distance in
          let cfn := stopcondition in
          let '(_, w) := _arrange N items fixeditems (arrange_bin bedhint)
                           min_obj_distance progressind cfn w in
          match stopcondition with
          | None => (Thrown_bad_function_call, w)
          | Some stop => if stop (polls w) then (Returned false, w) else (Returned ret, w)
          end
      end
  end.

(** [arrange] without the fixed items. *)
Definition arrange_movable (N : Nester) (inp : list Arrangeable) (min_d : Z)
  (bedhint : BedShapeHint) (prfn : option ProgressFn) (stopfn : option StopFn)
  : Outcome * World :=
  arrange N inp [] min_d bedhint prfn stopfn.

End Facade.

(** ** Reference instances of the parameters

    Modelled from the spec: the geometry primitives of spec 4.1 (areas,
    bounding boxes, convex hull, point distance) and the scaled units of the
    glossary, which libnest2d and libslic3r implement outside this file.
    They instantiate [Libnest2d] and [Libslic3r] for the evaluations on
    concrete inputs; the theorems hold for every instance. *)

Module Reference.

Local Open Scope float_scope.

(** Modelled from the spec: the signed area by the shoelace formula over a
    closed path (spec 4.1, signed and absolute area); positive for a
    counter-clockwise path. *)
Fixpoint shoelace (prev : IntPoint) (pts : list IntPoint) (a : double) : double :=
  match pts with
  | [] => a
  | p :: rest =>
      shoelace p rest
        (a + (of_coord (X prev) + of_coord (X p)) * (of_coord (Y prev) - of_coord (Y p)))
  end.

Definition path_area (pts : list IntPoint) : double :=
  match pts with
  | _ :: _ :: _ :: _ => - (shoelace (last pts (mkPoint 0 0)) pts 0) * 0.5
  | _ => 0
  end.

(** Modelled from the spec: the axis-aligned bounding box of a point set
    (spec 4.1); the box of no point is the zero box. *)
Definition points_box (pts : list IntPoint) : Box :=
  match pts with
  | [] => mkBox (mkPoint 0 0) (mkPoint 0 0)
  | p :: rest => fold_left (fun b q => box_hull b (mkBox q q)) rest (mkBox p p)
  end.

Definition box_width (b : Box) : Z := (X (maxCorner b) - X (minCorner b))%Z.
Definition box_height (b : Box) : Z := (Y (maxCorner b) - Y (minCorner b))%Z.

Definition box_area (b : Box) : double := of_coord (box_width b) * of_coord (box_height b).

(** Modelled from the spec: the centre of a box (spec 4.1), halving each
    corner before adding. *)
Definition box_center (b : Box) : IntPoint :=
  mkPoint (Z.quot (X (minCorner b)) 2 + Z.quot (X (maxCorner b)) 2)
          (Z.quot (Y (minCorner b)) 2 + Z.quot (Y (maxCorner b)) 2).

(** Modelled from the spec: the unbounded plane around a centre (spec 3,
    Infinite(center)), as a box whose half extent keeps widths and areas in
    range. *)
Definition box_infinite (center : IntPoint) : Box :=
  let M := (2 ^ 61)%Z in
  mkBox (mkPoint (X center - M) (Y center - M)) (mkPoint (X center + M) (Y center + M)).

(** Modelled from the spec: Euclidean point distance (spec 4.1). *)
Definition distance (p q : IntPoint) : double :=
  let dx := of_coord (X p - X q)%Z in
  let dy := of_coord (Y p - Y q)%Z in
  PrimFloat.sqrt (dx * dx + dy * dy).

Definition in_box (b : Box) (p : IntPoint) : bool :=
  ((X (minCorner b) <=? X p) && (X p <=? X (maxCorner b)) &&
   (Y (minCorner b) <=? Y p) && (Y p <=? Y (maxCorner b)))%Z.

Definition bin_box (bin : Bin) : Box :=
  match bin with
  | BinBox b => b
  | BinCircle c =>
      let r := to_coord (circle_radius c) in
      mkBox (mkPoint (X (circle_center c) - r) (Y (circle_center c) - r))
            (mkPoint (X (circle_center c) + r) (Y (circle_center c) + r))
  | BinPolygon p => points_box (Contour p)
  end.

Definition bin_area (bin : Bin) : double :=
  match bin with
  | BinBox b => box_area b
  | BinCircle c => circle_radius c * circle_radius c * 3.141592653589793
  | BinPolygon p => PrimFloat.abs (path_area (Contour p))
  end.

(** Modelled from the spec: the transformed shape of a part, its contour
    with rotation then translation applied (spec 3); rotations are
    restricted to 0 by the configuration, so only the translation is
    applied. *)
Definition transformed (i : Item) : ClipperPolygon :=
  mkClipperPolygon (map (point_add (translation_ i)) (Contour (sh_ i)))
                   (map (map (point_add (translation_ i))) (Holes (sh_ i))).

(** Modelled from the spec: containment of a shape in a bin (spec 3),
    tested on the vertices; a polygonal bin is tested by its bounding box. *)
Definition inside (sh : ClipperPolygon) (bin : Bin) : bool :=
  match bin with
  | BinCircle c =>
      forallb (fun p => negb (dgt (distance p (circle_center c)) (circle_radius c)))
              (Contour sh)
  | _ => forallb (in_box (bin_box bin)) (Contour sh)
  end.

(** Modelled from the spec: the convex hull (spec 4.1), by the monotone
    chain. *)
Definition cross (o a b : IntPoint) : Z :=
  ((X a - X o) * (Y b - Y o) - (Y a - Y o) * (X b - X o))%Z.

Definition lex_le (p q : IntPoint) : bool :=
  ((X p <? X q) || ((X p =? X q) && (Y p <=? Y q)))%Z.

Fixpoint insert_point (p : IntPoint) (l : list IntPoint) : list IntPoint :=
  match l with
  | [] => [p]
  | q :: rest => if lex_le p q then p :: l else q :: insert_point p rest
  end.

Fixpoint pop_right_turns (st : list IntPoint) (p : IntPoint) : list IntPoint :=
  match st with
  | b :: ((a :: _) as st') => if (cross a b p <=? 0)%Z then pop_right_turns st' p else st
  | _ => st
  end.

Definition half_hull (pts : list IntPoint) : list IntPoint :=
  removelast (rev (fold_left (fun st p => p :: pop_right_turns st p) pts [])).

Definition convex_hull (mp : MultiPolygon) : ClipperPolygon :=
  let pts := fold_right insert_point [] (flat_map Contour mp) in
  mkClipperPolygon (half_hull pts ++ half_hull (rev pts)) [].

Fixpoint path_length (prev : IntPoint) (pts : list IntPoint) (a : double) : double :=
  match pts with
  | [] => a
  | p :: rest => path_length p rest (a + distance prev p)
  end.

Definition circumference (sh : ClipperPolygon) : double :=
  match Contour sh with
  | [] => 0
  | p :: _ => path_length (last (Contour sh) p) (Contour sh) 0
  end.

(** Modelled from the spec: the overfit of a box in a bin (glossary), as
    the excess of width and of height. *)
Definition overfit_box (bb : Box) (bin : Bin) : double :=
  let wdiff := of_coord (box_width bb - box_width (bin_box bin))%Z in
  let hdiff := of_coord (box_height bb - box_height (bin_box bin))%Z in
  (if dgt wdiff 0 then wdiff else 0) + (if dgt hdiff 0 then hdiff else 0).

(** Modelled from the spec: the overfit of a hull in a bin (glossary), as
    how far its farthest vertex lies beyond the half diagonal of the bin's
    box. *)
Definition overfit_hull (sh : ClipperPolygon) (bin : Bin) : double :=
  let c := box_center (bin_box bin) in
  let r := distance (maxCorner (bin_box bin)) c in
  fold_left (fun acc p => let d := distance p c - r in if dgt d acc then d else acc)
    (Contour sh) (- r).

#[export] Instance nest2d : Libnest2d := {|
  sl_area := bin_area;
  sl_boundingBox_bin := bin_box;
  sl_boundingBox_pile := fun mp => points_box (flat_map Contour mp);
  sl_boundingBox := box_hull;
  sl_isInside := inside;
  sl_convexHull := convex_hull;
  pl_distance := distance;
  Box_default := mkBox (mkPoint 0 0) (mkPoint 0 0);
  Box_infinite := box_infinite;
  Box_center := box_center;
  Box_width := box_width;
  Box_height := box_height;
  Box_area := box_area;
  Item_boundingBox := fun i => points_box (Contour (transformed i));
  Item_area := fun i => PrimFloat.abs (path_area (Contour (sh_ i)));
  Item_transformedShape := transformed;
  EdgeCache_circumference := circumference;
  Placer_overfit_box := overfit_box;
  Placer_overfit_hull := overfit_hull
|}.

(** Modelled from the spec: scaled units are integers with
    1 mm = 1,000,000 (glossary); the scaled epsilon is 1e-4 mm. *)
Definition SCALING_FACTOR : double := 0.000001.
Definition EPSILON : double := 1e-4.

Definition points_bounding_box (pts : list Point) : BoundingBox :=
  mkBoundingBox (minCorner (points_box pts)) (maxCorner (points_box pts)).

Definition bounding_box_center (b : BoundingBox) : Point :=
  mkPoint (Z.quot (X (bb_min b) + X (bb_max b)) 2) (Z.quot (Y (bb_min b) + Y (bb_max b)) 2).

#[export] Instance slic3r : Libslic3r := {|
  SCALED_EPSILON := EPSILON / SCALING_FACTOR;
  unscaled := fun v => of_coord v * SCALING_FACTOR;
  Polygon_area := path_area;
  is_counter_clockwise := fun p => dgt (path_area p) 0;
  bounding_box := points_bounding_box;
  BoundingBox_center := bounding_box_center;
  Slic3rMultiPoint_to_ClipperPath := fun p => p;
  BedShapeHint_default :=
    mkBedShapeHint INFINITE
      (mkBedShapes CircleBed_default
         (mkBoundingBox (mkPoint 0 0) (mkPoint 0 0)) [] (mkInfiniteBed (mkPoint 0 0)))
|}.

End Reference.

(** * Statements *)

(** ** The two spatial indices *)

Section IndexStatements.
Context {nest2d : Libnest2d}.

(** [m_rtree] (the index of the big items) against [m_smallsrtree] (the
    index of all items), as sets of part indices. *)
Definition big_subset_all (a : AutoArranger) : Prop :=
  incl (indices (m_rtree a)) (indices (m_smallsrtree a)).

(** Every entry of the big index is a part of [m_items] that [isBig]. *)
Definition big_only (a : AutoArranger) : Prop :=
  forall e, In e (m_rtree a) ->
    exists itm, nth_error (m_items a) (snd e) = Some itm /\
                isBig (m_bin_area a) (Item_area itm) = true.

(** Every part of [m_items] is in the index of all items. *)
Definition all_placed (a : AutoArranger) : Prop :=
  forall idx, (idx < length (m_items a))%nat -> In idx (indices (m_smallsrtree a)).

Definition index_invariant (a : AutoArranger) : Prop :=
  big_subset_all a /\ big_only a /\ all_placed a.

(** The states of an arranger: built by the constructor, then changed by
    [preload], by [operator()] (which clears [m_rtree] before the engine
    runs) and by the [before_packing] callback the engine calls.  The flag
    tells whether a [preload] has happened since [m_rtree] was last
    cleared. *)
Inductive reachable : bool -> AutoArranger -> Prop :=
| reach_ctor bin dist progressind stopcond :
    reachable false (AutoArranger_ctor bin dist progressind stopcond)
| reach_preload b a fixeditems :
    reachable b a -> reachable true (fst (preload a fixeditems))
| reach_call b a :
    reachable b a -> reachable false (set_rtree [] a)
| reach_before_packing b a merged_pile items remaining :
    reachable b a -> reachable false (before_packing a merged_pile items remaining).

End IndexStatements.

(** ** The score of a big item, in the words of the specification *)

Section ObjfuncStatements.
Context {nest2d : Libnest2d}.

Local Open Scope float_scope.

(** The candidate is classified BIG_ITEM: it is big or the big index is
    empty, and there are remaining items. *)
Definition classified_BIG_ITEM (a : AutoArranger) (item : Item) : bool :=
  (isBig (m_bin_area a) (Item_area item) || rtree_empty (m_rtree a)) &&
  negb (match m_remaining a with [] => true | _ => false end).

Definition norm_by (a : AutoArranger) (v : double) : double := v / m_norm a.

(** The bounding box of the pile with the candidate. *)
Definition full_bb (a : AutoArranger) (item : Item) : Box :=
  sl_boundingBox (m_pilebb a) (Item_boundingBox item).

(** The distances from the centre of [full_bb] to the five anchors of the
    candidate's box. *)
Definition anchor_distances (a : AutoArranger) (item : Item) : double * list double :=
  let ibb := Item_boundingBox item in
  let cc := Box_center (full_bb a item) in
  (pl_distance (minCorner ibb) cc,
   [pl_distance (maxCorner ibb) cc;
    pl_distance (Box_center ibb) cc;
    pl_distance (mkPoint (X (minCorner ibb)) (Y (maxCorner ibb))) cc;
    pl_distance (mkPoint (X (maxCorner ibb)) (Y (minCorner ibb))) cc]).

Definition spec_dist (a : AutoArranger) (item : Item) (bincenter : IntPoint) : double :=
  0.8 * norm_by a (min_element (fst (anchor_distances a item)) (snd (anchor_distances a item)))
  + 0.2 * norm_by a (pl_distance (Box_center (Item_boundingBox item)) bincenter).

Definition spec_density (a : AutoArranger) (item : Item) : double :=
  PrimFloat.sqrt (norm_by a (of_coord (Box_width (full_bb a item))) *
                  norm_by a (of_coord (Box_height (full_bb a item)))).

(** The neighbours: what the index relevant for the candidate returns for
    its bounding box. *)
Definition neighbours (a : AutoArranger) (item : Item) : list SpatElement :=
  rtree_query (Item_boundingBox item)
    (if isBig (m_bin_area a) (Item_area item) then m_rtree a else m_smallsrtree a).

Definition neighbour_parts (a : AutoArranger) (item : Item) : list Item :=
  flat_map (fun e => match nth_error (m_items a) (snd e) with
                     | Some p => [p]
                     | None => []
                     end) (neighbours a item).

(** Equal area: relative difference below 1e-6. *)
Definition equal_area (item p : Item) : bool :=
  PrimFloat.abs (1.0 - Item_area p / Item_area item) <? 1e-6.

(** [1 - (item.area + neighbour.area) / area(bbox of item and neighbour)]. *)
Definition ascore (item p : Item) : double :=
  1.0 - (Item_area item + Item_area p) /
        Box_area (sl_boundingBox (Item_boundingBox p) (Item_boundingBox item)).

Definition equal_area_ascores (a : AutoArranger) (item : Item) : list double :=
  map (ascore item) (filter (equal_area item) (neighbour_parts a item)).

(** The minimum over the equal-area neighbours, 1.0 when there is none. *)
Definition spec_alignment (a : AutoArranger) (item : Item) : double :=
  match equal_area_ascores a item with
  | [] => 1.0
  | s :: rest => min_element s rest
  end.

Definition spec_big_item_score (a : AutoArranger) (item : Item) (bincenter : IntPoint)
  : double :=
  match neighbours a item with
  | [] => 0.5 * spec_dist a item bincenter + 0.5 * spec_density a item
  | _ => 0.40 * spec_dist a item bincenter + 0.40 * spec_density a item
         + 0.20 * spec_alignment a item
  end.

End ObjfuncStatements.

(** ** Concrete scenes

    Scaled units: 1 mm = 1,000,000. *)

Definition mm (v : Z) : Z := v * 1000000.

(** A closed clockwise square contour of side [a] mm at the origin. *)
Definition square (a : Z) : ClipperPolygon :=
  mkClipperPolygon
    [mkPoint 0 0; mkPoint 0 (mm a); mkPoint (mm a) (mm a); mkPoint (mm a) 0; mkPoint 0 0] [].

(** An item with a null apply function: a square of side [a] mm whose lower
    left corner is at ([x], [y]) mm. *)
Definition square_item (a x y : Z) : Item :=
  mkItem None (square a) 0%float (mkPoint (mm x) (mm y)) false.

(** A bed of 200 mm by 200 mm. *)
Definition bed200 : Box := mkBox (mkPoint 0 0) (mkPoint (mm 200) (mm 200)).

Definition arranger200 : AutoArranger :=
  @AutoArranger_ctor Reference.nest2d (BinBox bed200) 0 None None.

(** One 40 mm square is packed at the centre, a 10 mm square remains; the
    candidate is a 40 mm square touching the packed one on its right. *)
Definition packed_scene : AutoArranger :=
  @before_packing Reference.nest2d arranger200
    [Reference.transformed (square_item 40 80 80)]
    [square_item 40 80 80] [square_item 10 0 0].

Definition candidate : Item := square_item 40 120 80.

(** A 10 mm square kept fixed on the bed: 0.25 % of the bed, not a big
    item. *)
Definition preloaded_scene : AutoArranger :=
  fst (@preload Reference.nest2d arranger200 [square_item 10 50 50]).

(** A 40 mm square and a 10 mm square are packed: the first is a big
    item (4 % of the bed), the second is not. *)
Definition mixed_scene : AutoArranger :=
  @before_packing Reference.nest2d arranger200
    [Reference.transformed (square_item 40 80 80); Reference.transformed (square_item 10 130 80)]
    [square_item 40 80 80; square_item 10 130 80] [].

(** ** The classification of a bed outline *)

Section BedShapeStatements.
Context {slic3r : Libslic3r}.

Local Open Scope float_scope.

(** The area test of [bedShape]: the outline's unsigned area falls short of
    the area of its bounding box by less than 1e-3 of it. *)
Definition fills_bounding_box (bed : Polyline) : bool :=
  match poly_area bed with
  | None => false
  | Some parea => (1.0 - parea / bb_area (bounding_box bed)) <? 1e-3
  end.

(** In the words of the specification: the unsigned area equals the area
    of the bounding box within 1e-3 relative. *)
Definition spec_area_equals_bounding_box (bed : Polyline) : bool :=
  match poly_area bed with
  | None => false
  | Some parea => PrimFloat.abs (1.0 - parea / bb_area (bounding_box bed)) <? 1e-3
  end.

(** Every vertex is within [10 * SCALED_EPSILON] of the mean distance of
    the vertices from the centre of the bounding box. *)
Definition on_mean_radius (bed : Polyline) : bool :=
  forallb (fun el => negb (off_radius (avg_dist (bounding_box bed) bed) el))
          (vertex_distances (bounding_box bed) bed)
  && negb (isnan (avg_dist (bounding_box bed) bed)).

End BedShapeStatements.

(** Outlines, in scaled units: a 100 mm square, the same square wound
    twice, an L of 100 mm, and an octagon inscribed in a circle of radius
    100 mm. *)
Definition outline_square : Polyline :=
  [mkPoint 0 0; mkPoint (mm 100) 0; mkPoint (mm 100) (mm 100); mkPoint 0 (mm 100)].

Definition outline_twice : Polyline := outline_square ++ outline_square.

Definition outline_L : Polyline :=
  [mkPoint 0 0; mkPoint (mm 100) 0; mkPoint (mm 100) (mm 50); mkPoint (mm 50) (mm 50);
   mkPoint (mm 50) (mm 100); mkPoint 0 (mm 100)].

Definition outline_octagon : Polyline :=
  [mkPoint 100000000 0; mkPoint 70710678 70710678; mkPoint 0 100000000;
   mkPoint (-70710678) 70710678; mkPoint (-100000000) 0; mkPoint (-70710678) (-70710678);
   mkPoint 0 (-100000000); mkPoint 70710678 (-70710678)].

(** ** The facade: what a run does to the outside *)

Section FacadeStatements.
Context {nest2d : Libnest2d} {slic3r : Libslic3r}.

(** The runs of the engine a trace records. *)
Definition engine_runs (tr : list Event) : list (AutoArranger * list Item) :=
  flat_map (fun ev => match ev with
                      | NesterExecute a inp => [(a, inp)]
                      | _ => []
                      end) tr.

(** The call of [apply_arrange_result] an item triggers when its X
    translation is moved by [offset]; none for a null apply function. *)
Definition apply_event (offset : Z) (itm : Item) : list Event :=
  match applyfn_ itm with
  | None => []
  | Some (ApplyResultTo h) =>
      [ApplyArrangeResult h (unscaled (X (translation_ itm) + offset))
         (unscaled (Y (translation_ itm))) (rotation_ itm)]
  end.

(** The calls for the parts of one bin, and for the bins [k], [k+1], ...
    laid out at multiples of [stride]. *)
Definition bin_events (offset : Z) (inp : list Item) (bin : list Placement) : list Event :=
  flat_map (fun p => match place inp p with
                     | None => []
                     | Some itm => apply_event offset itm
                     end) bin.

Fixpoint bins_events (stride : Z) (inp : list Item) (k : nat)
  (bins : list (list Placement)) : list Event :=
  match bins with
  | [] => []
  | bin :: rest =>
      bin_events (Z.of_nat k * stride) inp bin ++ bins_events stride inp (S k) rest
  end.

(** An item moved so that the centre of its bounding box goes to the
    centre of [binbb]: translated by the difference of the two centres. *)
Definition centered (binbb : Box) (itm : Item) : Item :=
  translate (point_sub (Box_center binbb) (Box_center (Item_boundingBox itm))) itm.

(** The item the warm start seats: the first one, in the order of the
    list, that does not collide once centred. *)
Fixpoint seated_item (arranger : AutoArranger) (binbb : Box) (shapes : list Item)
  : option Item :=
  match shapes with
  | [] => None
  | itm :: rest =>
      if is_colliding arranger (centered binbb itm)
      then seated_item arranger binbb rest
      else Some (markAsFixed (centered binbb itm))
  end.

(** What is left in the list: the items visited before the seated one stay,
    centred; the items after it are untouched. *)
Fixpoint left_movable (arranger : AutoArranger) (binbb : Box) (shapes : list Item)
  : list Item :=
  match shapes with
  | [] => []
  | itm :: rest =>
      if is_colliding arranger (centered binbb itm)
      then centered binbb itm :: left_movable arranger binbb rest
      else rest
  end.

Definition seated_events (arranger : AutoArranger) (binbb : Box) (shapes : list Item)
  : list Event :=
  match seated_item arranger binbb shapes with
  | None => []
  | Some itm => apply_event 0 itm
  end.

(** The state of [_arrange] when it calls the arranger: the arranger, the
    input [inp] and the world. *)
Definition _arrange_setup (shapes excludes : list Item) (bin : Bin) (minobjd : Z)
  (prind : option ProgressFn) (stopfn : option StopFn) (w : World)
  : AutoArranger * list Item * World :=
  let arranger := AutoArranger_ctor bin minobjd prind stopfn in
  match erase_outside bin excludes with
  | [] => (arranger, shapes, w)
  | kept =>
      let arranger := fst (preload arranger kept) in
      let binbb := sl_boundingBox_bin bin in
      (arranger,
       left_movable arranger binbb shapes ++ map markAsFixed kept,
       mkWorld (binwidth w) (polls w) (trace w ++ seated_events arranger binbb shapes))
  end.

(** The answer of the final [if (stopcondition()) return false; return ret;]. *)
Definition final_answer (stopcondition : option StopFn) (n : nat) : Outcome :=
  match stopcondition with
  | None => Thrown_bad_function_call
  | Some stop => Returned (negb (stop n))
  end.

(** The arranger and the input [arrange] hands to the engine, the bins the
    engine fills and the number of times it polls the stop predicate. *)
Definition arrange_setup (items fixeditems : list Item) (min_obj_distance : Z)
  (bedhint : BedShapeHint) (progressind : option ProgressFn)
  (stopcondition : option StopFn) : AutoArranger * list Item * World :=
  _arrange_setup items fixeditems (arrange_bin bedhint) min_obj_distance
    progressind stopcondition (mkWorld 0 0 []).

Definition engine_arranger (items fixeditems : list Item) (min_obj_distance : Z)
  (bedhint : BedShapeHint) (progressind : option ProgressFn)
  (stopcondition : option StopFn) : AutoArranger :=
  set_rtree [] (fst (fst (arrange_setup items fixeditems min_obj_distance bedhint
                            progressind stopcondition))).

Definition engine_input (items fixeditems : list Item) (min_obj_distance : Z)
  (bedhint : BedShapeHint) (progressind : option ProgressFn)
  (stopcondition : option StopFn) : list Item :=
  snd (fst (arrange_setup items fixeditems min_obj_distance bedhint
              progressind stopcondition)).

Definition engine_result (N : Nester) (items fixeditems : list Item)
  (min_obj_distance : Z) (bedhint : BedShapeHint) (progressind : option ProgressFn)
  (stopcondition : option StopFn) : list (list Placement) * nat :=
  select_and_place N
    (engine_arranger items fixeditems min_obj_distance bedhint progressind stopcondition)
    (engine_input items fixeditems min_obj_distance bedhint progressind stopcondition) 0.

(** The apply function of an item is null or belongs to one of [hosts]. *)
Definition registered (hosts : list Arrangeable) (itm : Item) : Prop :=
  match applyfn_ itm with
  | None => True
  | Some (ApplyResultTo h) => In h hosts
  end.

(** The centre [arrange] builds its bin around. *)
Definition hint_center (bedhint : BedShapeHint) : IntPoint :=
  mkPoint (X (BoundingBox_center (box (shape bedhint))))
          (Y (BoundingBox_center (box (shape bedhint)))).

End FacadeStatements.

(** The results host objects receive, by address. *)
Definition applied_results (tr : list Event) : list (nat * double * double) :=
  flat_map (fun ev => match ev with
                      | ApplyArrangeResult h x y _ => [(address h, x, y)]
                      | _ => []
                      end) tr.

(** ** The engine on the infinite bin *)




(** ** Engines and hosts for the concrete runs *)

(** An engine that leaves every part where it is, all in the first bin.
    It does not poll the stop predicate. *)
Definition keep_pose (inp : list Item) : list Placement :=
  map (fun p => mkPlacement (fst p) (translation_ (snd p)) (rotation_ (snd p)))
      (combine (seq 0 (length inp)) inp).

Definition one_bin : Nester :=
  mkNester (fun _ inp _ => ([keep_pose inp], 0%nat)).

Definition never_stop : StopFn := fun _ => false.

(** A host object at [addr]: a counter-clockwise square of side [a] mm,
    offered at ([x], [y]) mm, unrotated. *)
Definition square_host (addr : nat) (a x y : Z) : Arrangeable :=
  mkArrangeable addr
    ([mkPoint 0 0; mkPoint (mm a) 0; mkPoint (mm a) (mm a); mkPoint 0 (mm a)],
     mkPoint (mm x) (mm y), 0%float).

(** The item [arrange] builds for [square_host]: reversed to clockwise,
    closed with its first point. *)
Definition host_item (applyfn : option ApplyFn) (a x y : Z) : Item :=
  mkItem applyfn
    (mkClipperPolygon
       [mkPoint 0 (mm a); mkPoint (mm a) (mm a); mkPoint (mm a) 0; mkPoint 0 0;
        mkPoint 0 (mm a)] [])
    0%float (mkPoint (mm x) (mm y)) false.

(** A hint for a box bed of 200 mm by 200 mm. *)
Definition hint200 : BedShapeHint :=
  mkBedShapeHint BOX
    (mkBedShapes CircleBed_default
       (mkBoundingBox (mkPoint 0 0) (mkPoint (mm 200) (mm 200)))
       [] (mkInfiniteBed (mkPoint 0 0))).

(** Two movable hosts. *)
Definition two_hosts : list Arrangeable :=
  [square_host 1 20 10 20; square_host 2 20 30 20].

Definition two_items : list Item :=
  [host_item (Some (ApplyResultTo (square_host 1 20 10 20))) 20 10 20;
   host_item (Some (ApplyResultTo (square_host 2 20 30 20))) 20 30 20].

(** A scene for the warm start: a fixed 30 mm square right of the centre
    of the bed, a movable 60 mm square and a movable 10 mm square. *)
Definition fixed_part : Item := square_item 30 110 85.

Definition big_movable : Item :=
  host_item (Some (ApplyResultTo (square_host 1 60 0 0))) 60 0 0.

Definition small_movable : Item :=
  host_item (Some (ApplyResultTo (square_host 2 10 0 0))) 10 0 0.

Definition preloaded200 : AutoArranger :=
  fst (@preload Reference.nest2d
         (@AutoArranger_ctor Reference.nest2d (BinBox bed200) 0 None None)
         [fixed_part]).

(** A fixed host: a 30 mm square at (110, 85) mm. *)
Definition fixed_host : Arrangeable := square_host 3 30 110 85.

(** A fixed part that sticks out of the 200 mm bed. *)
Definition outside_part : Item := square_item 30 190 190.

(** ** Further statements *)

Section FurtherStatements.
Context {nest2d : Libnest2d} {slic3r : Libslic3r}.

(** The entries [before_packing] builds from the items at positions [k],
    [k+1], ...: one per item for the index of all items, and those of the
    big items for the big index. *)
Definition all_entries (k : nat) (items : list Item) : SpatIndex :=
  map (fun p => (Item_boundingBox (fst p), snd p)) (combine items (seq k (length items))).

Definition big_entries (bin_area : double) (k : nat) (items : list Item) : SpatIndex :=
  map (fun p => (Item_boundingBox (fst p), snd p))
      (filter (fun p => isBig bin_area (Item_area (fst p)))
              (combine items (seq k (length items)))).

(** What identifies a part through an arrangement: its callback, its
    stored shape and its rotation (the translation and the fixed flag
    change). *)
Definition part_identity (i : Item) : option ApplyFn * ClipperPolygon * double :=
  (applyfn_ i, sh_ i, rotation_ i).

(** The clipper path [process_arrangeable] builds for a handle, before it
    is closed: the polygon, reversed when it is counter-clockwise. *)
Definition oriented_path (a : Arrangeable) : list IntPoint :=
  Slic3rMultiPoint_to_ClipperPath
    (if is_counter_clockwise (fst (fst (get_arrange_polygon a)))
     then rev (fst (fst (get_arrange_polygon a)))
     else fst (fst (get_arrange_polygon a))).

(** The item built for handle [a] with apply function [f]: the closed
    oriented path, no hole, the offset and the rotation of the handle, not
    fixed. *)
Definition built_from (f : option ApplyFn) (a : Arrangeable) (it : Item) : Prop :=
  applyfn_ it = f /\
  (exists firstp rest,
      oriented_path a = firstp :: rest /\
      Contour (sh_ it) = firstp :: rest ++ [firstp]) /\
  Holes (sh_ it) = [] /\
  translation_ it = snd (fst (get_arrange_polygon a)) /\
  rotation_ it = snd (get_arrange_polygon a) /\
  fixed_ it = false.

End FurtherStatements.

(** A pile box inside the 200 mm bed, and a small candidate next to the
    packed square of [packed_scene]. *)
Definition pile_box : Box := mkBox (mkPoint (mm 80) (mm 80)) (mkPoint (mm 120) (mm 120)).

Definition small_candidate : Item := square_item 10 125 80.

(** * Theorems *)

Local Open Scope nat_scope.

Section IndexTheorems.
Context {nest2d : Libnest2d}.

(** The loop of [before_packing] appends the positions [k, k+1, ...] of the
    items to the index of all items. *)
Lemma index_items_all bin_area items : forall k rtree smallsrtree,
  indices (snd (index_items bin_area k items rtree smallsrtree)) =
  indices smallsrtree ++ seq k (length items).
Proof.
  induction items as [|itm rest IH]; intros k rtree smallsrtree; simpl.
  - now rewrite app_nil_r.
  - rewrite IH. unfold rtree_insert, indices. rewrite map_app. simpl.
    now rewrite <- app_assoc.
Qed.

(** It appends to the big index only positions of items that [isBig]. *)
Lemma index_items_big bin_area items : forall k rtree smallsrtree e,
  In e (fst (index_items bin_area k items rtree smallsrtree)) ->
  In e rtree \/
  exists itm, nth_error items (snd e - k) = Some itm /\ k <= snd e /\
              isBig bin_area (Item_area itm) = true.
Proof.
  induction items as [|itm rest IH]; intros k rtree smallsrtree e Hin; simpl in Hin.
  - now left.
  - apply IH in Hin. destruct Hin as [Hin | (p & Hnth & Hle & Hbig)].
    + destruct (isBig bin_area (Item_area itm)) eqn:Hb; [|now left].
      unfold rtree_insert in Hin. apply in_app_or in Hin.
      destruct Hin as [Hin | [<- | []]]; [now left|].
      right. exists itm. simpl. rewrite Nat.sub_diag. auto.
    + right. exists p. split; [|split; [lia | exact Hbig]].
      replace (snd e - k) with (S (snd e - S k)) by lia. exact Hnth.
Qed.

Lemma before_packing_fields a merged_pile items remaining :
  m_rtree (before_packing a merged_pile items remaining) =
    fst (index_items (m_bin_area a) 0 items [] []) /\
  m_smallsrtree (before_packing a merged_pile items remaining) =
    snd (index_items (m_bin_area a) 0 items [] []) /\
  m_items (before_packing a merged_pile items remaining) = items /\
  m_bin_area (before_packing a merged_pile items remaining) = m_bin_area a.
Proof.
  unfold before_packing.
  destruct (index_items (m_bin_area a) 0 items [] []) as [r s]. simpl. auto.
Qed.

(** After [before_packing] the three properties hold, whatever the state
    before. *)
Lemma before_packing_invariant a merged_pile items remaining :
  index_invariant (before_packing a merged_pile items remaining).
Proof.
  destruct (before_packing_fields a merged_pile items remaining)
    as (Hr & Hs & Hi & Ha).
  assert (Hall : indices (m_smallsrtree (before_packing a merged_pile items remaining))
                 = seq 0 (length items)).
  { rewrite Hs, index_items_all. reflexivity. }
  assert (Hbig : forall e, In e (m_rtree (before_packing a merged_pile items remaining)) ->
            exists itm, nth_error items (snd e) = Some itm /\
                        isBig (m_bin_area a) (Item_area itm) = true).
  { intros e He. rewrite Hr in He. apply index_items_big in He.
    destruct He as [[] | (itm & Hnth & _ & Hb)].
    rewrite Nat.sub_0_r in Hnth. eauto. }
  repeat split.
  - intros idx Hidx. unfold indices in Hidx. apply in_map_iff in Hidx.
    destruct Hidx as (e & <- & He). apply Hbig in He.
    destruct He as (itm & Hnth & _). rewrite Hall. apply in_seq.
    assert (snd e < length items) by (apply nth_error_Some; congruence). lia.
  - intros e He. rewrite Hi, Ha. now apply Hbig.
  - intros idx Hidx. rewrite Hi in Hidx. rewrite Hall. apply in_seq. lia.
Qed.

(** After [before_packing] both indices hold positions of [m_items] only. *)
Lemma before_packing_in_range a merged_pile items remaining e :
  In e (m_rtree (before_packing a merged_pile items remaining)) \/
  In e (m_smallsrtree (before_packing a merged_pile items remaining)) ->
  snd e < length (m_items (before_packing a merged_pile items remaining)).
Proof.
  destruct (before_packing_invariant a merged_pile items remaining)
    as (_ & Honly & _).
  destruct (before_packing_fields a merged_pile items remaining)
    as (_ & Hs & Hi & _).
  intros [He | He].
  - destruct (Honly e He) as (itm & Hnth & _).
    apply nth_error_Some. congruence.
  - rewrite Hi.
    assert (Hidx : In (snd e)
              (indices (m_smallsrtree (before_packing a merged_pile items remaining))))
      by (unfold indices; now apply in_map).
    rewrite Hs, index_items_all in Hidx. apply in_seq in Hidx. simpl in Hidx. lia.
Qed.

Lemma preload_fields a fixeditems :
  m_smallsrtree (fst (preload a fixeditems)) = m_smallsrtree a /\
  m_items (fst (preload a fixeditems)) = m_items a /\
  m_rtree (fst (preload a fixeditems)) = snd (preload_loop 0 fixeditems (m_rtree a)) /\
  snd (preload a fixeditems) = fst (preload_loop 0 fixeditems (m_rtree a)).
Proof.
  unfold preload. destruct (preload_loop 0 fixeditems (m_rtree a)) as [f r]. simpl. auto.
Qed.

(** What survives a [preload]: the index of all items still covers
    [m_items]; the two properties of the big index need [m_rtree] to have
    been cleared since. *)
Lemma reachable_invariant b a :
  reachable b a -> all_placed a /\ (b = false -> index_invariant a).
Proof.
  induction 1 as [bin dist pr st | b a fixeditems _ [IHall _] | b a _ [IHall _]
                  | b a pile items remaining _ _].
  - split; [|intros _; repeat split].
    + intros idx Hidx. simpl in Hidx. lia.
    + intros idx [].
    + intros e [].
    + intros idx Hidx. simpl in Hidx. lia.
  - destruct (preload_fields a fixeditems) as (Hs & Hi & _).
    split; [|discriminate]. unfold all_placed. rewrite Hs, Hi. exact IHall.
  - split; [exact IHall|]. intros _. repeat split.
    + intros idx [].
    + intros e [].
    + exact IHall.
  - pose proof (before_packing_invariant a pile items remaining) as Hinv.
    split; [apply Hinv | intros _; exact Hinv].
Qed.

(** C5 (as amended).  In every state of the arranger that is reached with
    no [preload] since [m_rtree] was last cleared (after the constructor,
    after [operator()], after any [before_packing]), the part indices of the
    big index are among those of the index of all items, the big index
    holds only parts with [area / bin_area > 0.02], and the index of all
    items holds every part handed to [before_packing]. *)
Theorem index_invariant_without_preload a :
  reachable false a -> index_invariant a.
Proof.
  intros Hreach. destruct (@reachable_invariant false a Hreach) as [_ Hinv]. now apply Hinv.
Qed.

End IndexTheorems.

Lemma index_invariant_witness :
  indices (m_rtree mixed_scene) = [0] /\ indices (m_smallsrtree mixed_scene) = [0; 1] /\
  @index_invariant Reference.nest2d mixed_scene.
Proof.
  split; [vm_compute; reflexivity|]. split; [vm_compute; reflexivity|].
  apply index_invariant_without_preload. unfold mixed_scene.
  apply reach_before_packing with (b := false). apply reach_ctor.
Defined.

(** C5, as stated, fails between [preload] and the next clearing of
    [m_rtree]: the fixed 10 mm square is in the big index under position 0,
    the index of all items is empty, and [m_items] has no part 0. *)
Lemma preload_breaks_index_invariant :
  (exists b, @reachable Reference.nest2d b preloaded_scene) /\
  ~ big_subset_all preloaded_scene /\
  ~ @big_only Reference.nest2d preloaded_scene.
Proof.
  split; [|split].
  - exists true. unfold preloaded_scene.
    apply reach_preload with (b := false). apply reach_ctor.
  - intros Hincl.
    assert (Hin : In 0 (indices (m_rtree preloaded_scene)))
      by (vm_compute; left; reflexivity).
    apply Hincl in Hin. vm_compute in Hin. exact Hin.
  - intros Honly.
    assert (Hin : In (mkBox (mkPoint 50000000 50000000) (mkPoint 60000000 60000000), 0)
                     (m_rtree preloaded_scene))
      by (vm_compute; left; reflexivity).
    apply Honly in Hin. destruct Hin as (itm & Hnth & _).
    vm_compute in Hnth. discriminate.
Qed.

(** ** The objective function on a big item *)

Section ObjfuncTheorems.
Context {nest2d : Libnest2d}.

(** A double that is at most 1.0 and not below it is 1.0. *)
Lemma leb_one_not_ltb (s : double) :
  PrimFloat.leb s 1%float = true -> PrimFloat.ltb s 1%float = false -> s = 1%float.
Proof.
  rewrite FloatAxioms.leb_spec, FloatAxioms.ltb_spec. intros Hle Hlt. apply Prim2SF_inj.
  change (Prim2SF 1%float) with (S754_finite false 4503599627370496 (-52)) in *.
  revert Hle Hlt. generalize 4503599627370496%positive as m1. generalize (-52)%Z as e1.
  intros e1 m1. unfold SFleb, SFltb.
  destruct (Prim2SF s) as [sg | sg | | sg m e]; cbn [SFcompare].
  all: try (destruct sg; discriminate).
  - discriminate.
  - destruct sg; try discriminate.
    destruct (Z.compare_spec e e1) as [He | He | He]; try discriminate.
    change (PosDef.Pos.compare_cont Eq m m1) with (Pos.compare m m1).
    destruct (Pos.compare_spec m m1) as [Hm | Hm | Hm]; try discriminate.
    intros _ _. now subst.
Qed.

Lemma dmin_one (s : double) : PrimFloat.leb s 1%float = true -> dmin 1%float s = s.
Proof.
  intros Hle. unfold dmin. destruct (PrimFloat.ltb s 1%float) eqn:Hlt; [reflexivity|].
  symmetry. now apply leb_one_not_ltb.
Qed.

(** Starting the running minimum at 1.0 gives the minimum of the scores
    when none of them exceeds 1.0. *)
Lemma min_from_one (s : double) (rest : list double) :
  PrimFloat.leb s 1%float = true -> fold_left dmin (s :: rest) 1%float = min_element s rest.
Proof.
  intros Hle. simpl. now rewrite dmin_one.
Qed.

(** The loop over the query result computes the running minimum of the
    scores of the equal-area parts, when every returned index is in range. *)
Lemma alignment_loop_min items item : forall result acc,
  (forall e, In e result -> snd e < length items) ->
  alignment_loop items item (Item_boundingBox item) result acc =
  Some (fold_left dmin
          (map (ascore item)
             (filter (equal_area item)
                (flat_map (fun e => match nth_error items (snd e) with
                                    | Some p => [p]
                                    | None => []
                                    end) result)))
          acc).
Proof.
  induction result as [|e rest IH]; intros acc Hrange; [reflexivity|].
  simpl. destruct (nth_error items (snd e)) as [p|] eqn:Hnth.
  - simpl. fold (equal_area item p).
    destruct (equal_area item p) eqn:Heq; simpl.
    + rewrite IH by (intros e' He'; apply Hrange; now right).
      reflexivity.
    + apply IH. intros e' He'. apply Hrange. now right.
  - exfalso. apply nth_error_None in Hnth.
    specialize (Hrange e (or_introl eq_refl)). lia.
Qed.

(** The score of a big item in any state whose queried index holds
    positions of [m_items]. *)
Lemma objfunc_big_item_general (a : AutoArranger) (item : Item) (bincenter : IntPoint) :
  classified_BIG_ITEM a item = true ->
  (forall e, In e (neighbours a item) -> snd e < length (m_items a)) ->
  (forall s, In s (equal_area_ascores a item) -> PrimFloat.leb s 1%float = true) ->
  objfunc a item bincenter =
  Some (spec_big_item_score a item bincenter, full_bb a item).
Proof.
  intros Hcase Hrange Hle. unfold classified_BIG_ITEM in Hcase.
  unfold objfunc, compute_case. rewrite Hcase.
  fold (neighbours a item).
  rewrite (alignment_loop_min (m_items a) item (neighbours a item) 1%float Hrange).
  fold (neighbour_parts a item). fold (equal_area_ascores a item).
  fold (full_bb a item). unfold spec_big_item_score.
  destruct (neighbours a item) as [|e rest] eqn:Hn; [reflexivity|].
  f_equal. f_equal. f_equal. f_equal.
  unfold spec_alignment.
  destruct (equal_area_ascores a item) as [|s ss] eqn:Hs; [reflexivity|].
  apply min_from_one. apply Hle. now left.
Qed.

Lemma neighbours_in_index (a : AutoArranger) (item : Item) (e : SpatElement) :
  In e (neighbours a item) -> In e (m_rtree a) \/ In e (m_smallsrtree a).
Proof.
  unfold neighbours, rtree_query. intros He. apply filter_In in He.
  destruct He as [He _].
  destruct (isBig (m_bin_area a) (Item_area item)); [now left | now right].
Qed.

(** C7.  In the state [before_packing] sets up, for a candidate classified
    BIG_ITEM whose alignment scores do not exceed 1.0 (as they cannot when
    areas are positive), [objfunc] returns the score of the specification:
    [0.5 dist + 0.5 density] when the query for the neighbours returns
    nothing, and [0.40 dist + 0.40 density + 0.20 alignment] otherwise,
    together with the bounding box of the pile with the candidate. *)
Theorem objfunc_big_item_score (a0 : AutoArranger) (merged_pile : MultiPolygon)
  (items remaining : ItemGroup) (item : Item) (bincenter : IntPoint) :
  let a := before_packing a0 merged_pile items remaining in
  classified_BIG_ITEM a item = true ->
  (forall s, In s (equal_area_ascores a item) -> PrimFloat.leb s 1%float = true) ->
  objfunc a item bincenter =
  Some (spec_big_item_score a item bincenter, full_bb a item).
Proof.
  intros a Hcase Hle. apply objfunc_big_item_general; [exact Hcase| |exact Hle].
  intros e He. apply before_packing_in_range. now apply (neighbours_in_index a item).
Qed.

End ObjfuncTheorems.

Lemma objfunc_big_item_witness :
  @objfunc Reference.nest2d packed_scene candidate (mkPoint (mm 100) (mm 100)) =
  Some (0.16113708498984763%float,
        mkBox (mkPoint (mm 80) (mm 80)) (mkPoint (mm 160) (mm 120))).
Proof.
  unfold packed_scene.
  rewrite (@objfunc_big_item_score Reference.nest2d arranger200
             [Reference.transformed (square_item 40 80 80)]
             [square_item 40 80 80] [square_item 10 0 0] candidate).
  - vm_compute. reflexivity.
  - vm_compute. reflexivity.
  - intros s Hs. vm_compute in Hs. destruct Hs as [<- | []]. vm_compute. reflexivity.
Defined.

(** ** The classification of a bed outline *)

Section BedShapeTheorems.
Context {slic3r : Libslic3r}.

Lemma existsb_forallb_negb (A : Type) (f : A -> bool) (l : list A) :
  existsb f l = negb (forallb (fun x => negb (f x)) l).
Proof.
  induction l as [|x l IH]; [reflexivity|].
  simpl. rewrite IH. now destruct (f x).
Qed.

(** [isCircle] answers a circle exactly when every vertex is on the mean
    radius and that mean is a number. *)
Lemma isCircle_bool (bed : Polyline) :
  CircleBed_bool (isCircle (bounding_box bed) bed) = on_mean_radius bed.
Proof.
  unfold isCircle, on_mean_radius. rewrite existsb_forallb_negb.
  destruct (forallb _ _); reflexivity.
Qed.

(** C8 (as amended).  A non-empty outline is a Box exactly when its
    unsigned area falls short of the area of its bounding box by less than
    1e-3 of it (an area above that of the box passes too); otherwise it is a
    Circle exactly when every vertex lies within [10 * SCALED_EPSILON] of the
    mean distance of the vertices from the centre of the bounding box;
    otherwise it is Irregular. *)
Theorem bedShape_classification (bed : Polyline) :
  bed <> [] ->
  exists hint, bedShape bed = Some hint /\
    (type hint = BOX <-> fills_bounding_box bed = true) /\
    (type hint = CIRCLE <->
       fills_bounding_box bed = false /\ on_mean_radius bed = true) /\
    (type hint = IRREGULAR <->
       fills_bounding_box bed = false /\ on_mean_radius bed = false).
Proof.
  intros Hne. destruct bed as [|front rest]; [contradiction|].
  unfold bedShape, fills_bounding_box.
  rewrite isCircle_bool.
  destruct (poly_area (front :: rest)) as [parea|] eqn:Harea; [|discriminate].
  destruct (PrimFloat.ltb _ _) eqn:Hbox.
  - eexists. split; [reflexivity|]. simpl.
    repeat split; intros; try easy; destruct H; discriminate.
  - destruct (on_mean_radius (front :: rest)) eqn:Hcirc.
    + eexists. split; [reflexivity|]. simpl.
      repeat split; intros; try easy; destruct H; discriminate.
    + eexists. split; [reflexivity|]. simpl.
      repeat split; intros; try easy; destruct H; discriminate.
Qed.

End BedShapeTheorems.

Lemma bedShape_classification_witness :
  outline_octagon <> [] /\
  exists hint, @bedShape Reference.slic3r outline_octagon = Some hint /\
    (type hint = BOX <-> @fills_bounding_box Reference.slic3r outline_octagon = true) /\
    (type hint = CIRCLE <->
       @fills_bounding_box Reference.slic3r outline_octagon = false /\
       @on_mean_radius Reference.slic3r outline_octagon = true) /\
    (type hint = IRREGULAR <->
       @fills_bounding_box Reference.slic3r outline_octagon = false /\
       @on_mean_radius Reference.slic3r outline_octagon = false).
Proof.
  split; [discriminate|].
  apply (@bedShape_classification Reference.slic3r outline_octagon). discriminate.
Defined.

(** The three classes on concrete outlines. *)
Example bedShape_square :
  option_map type (@bedShape Reference.slic3r outline_square) = Some BOX.
Proof. vm_compute. reflexivity. Qed.

Example bedShape_octagon :
  option_map type (@bedShape Reference.slic3r outline_octagon) = Some CIRCLE.
Proof. vm_compute. reflexivity. Qed.

Example bedShape_L :
  option_map type (@bedShape Reference.slic3r outline_L) = Some IRREGULAR.
Proof. vm_compute. reflexivity. Qed.

(** C8, as stated, fails on the square wound twice: its shoelace area is
    twice the area of its bounding box, which is not equal within 1e-3, and
    [bedShape] answers Box. *)
Lemma bedShape_twice_wound_is_box :
  option_map type (@bedShape Reference.slic3r outline_twice) = Some BOX /\
  @spec_area_equals_bounding_box Reference.slic3r outline_twice = false /\
  @poly_area Reference.slic3r outline_twice = Some 2e16%float /\
  bb_area (@bounding_box Reference.slic3r outline_twice) = 1e16%float.
Proof.
  repeat split; vm_compute; reflexivity.
Qed.

(** ** The facade *)

Section FacadeTheorems.
Context {nest2d : Libnest2d} {slic3r : Libslic3r}.

Local Open Scope Z_scope.

(** *** The callbacks *)

Lemma world_eta (w : World) : mkWorld (binwidth w) (polls w) (trace w) = w.
Proof. now destruct w. Qed.

Lemma callApplyFunction_spec (itm : Item) (k : nat) (w : World) :
  callApplyFunction itm k w =
  mkWorld (binwidth w) (polls w)
    (trace w ++ apply_event (Z.of_nat k * stride_padding (binwidth w)) itm).
Proof.
  unfold callApplyFunction, apply_event.
  destruct (applyfn_ itm) as [[h]|]; [reflexivity|].
  now rewrite app_nil_r, world_eta.
Qed.

Lemma apply_bin_spec (inp : list Item) (k : nat) (bin : list Placement) : forall w,
  apply_bin inp k bin w =
  mkWorld (binwidth w) (polls w)
    (trace w ++ bin_events (Z.of_nat k * stride_padding (binwidth w)) inp bin).
Proof.
  induction bin as [|p bin IH]; intros w; simpl.
  - now rewrite app_nil_r, world_eta.
  - rewrite IH. destruct (place inp p) as [itm|]; [|reflexivity].
    rewrite callApplyFunction_spec. simpl. now rewrite <- app_assoc.
Qed.

Lemma apply_bins_spec (inp : list Item) (bins : list (list Placement)) : forall k w,
  apply_bins inp k bins w =
  mkWorld (binwidth w) (polls w)
    (trace w ++ bins_events (stride_padding (binwidth w)) inp k bins).
Proof.
  induction bins as [|bin bins IH]; intros k w; simpl.
  - now rewrite app_nil_r, world_eta.
  - rewrite IH, apply_bin_spec. simpl. now rewrite <- app_assoc.
Qed.

(** *** The warm start *)

Lemma warm_start_spec (arranger : AutoArranger) (binbb : Box) (shapes : list Item) :
  forall w,
  warm_start arranger binbb shapes w =
  (left_movable arranger binbb shapes,
   mkWorld (binwidth w) (polls w) (trace w ++ seated_events arranger binbb shapes)).
Proof.
  unfold seated_events.
  induction shapes as [|itm rest IH]; intros w; simpl.
  - now rewrite app_nil_r, world_eta.
  - fold (centered binbb itm).
    destruct (is_colliding arranger (centered binbb itm)); simpl.
    + now rewrite IH.
    + rewrite callApplyFunction_spec. simpl. reflexivity.
Qed.

(** *** The preload *)

Lemma preload_loop_spec (fixeditems : list Item) : forall k rtree,
  preload_loop k fixeditems rtree =
  (map markAsFixed fixeditems,
   rtree ++ combine (map Item_boundingBox (map markAsFixed fixeditems))
                    (seq k (length fixeditems))).
Proof.
  induction fixeditems as [|itm rest IH]; intros k rtree; simpl.
  - now rewrite app_nil_r.
  - rewrite IH. unfold rtree_insert. now rewrite <- app_assoc.
Qed.

Lemma preload_spec (a : AutoArranger) (fixeditems : list Item) :
  snd (preload a fixeditems) = map markAsFixed fixeditems /\
  m_rtree (fst (preload a fixeditems)) =
    m_rtree a ++ combine (map Item_boundingBox (map markAsFixed fixeditems))
                         (seq 0 (length fixeditems)) /\
  m_bin (fst (preload a fixeditems)) = m_bin a /\
  pck_bin (m_pck (fst (preload a fixeditems))) = pck_bin (m_pck a) /\
  pck_dist (m_pck (fst (preload a fixeditems))) = pck_dist (m_pck a) /\
  alignment (m_pconf (fst (preload a fixeditems))) = DONT_ALIGN.
Proof.
  unfold preload. rewrite preload_loop_spec. simpl. repeat split.
Qed.

(** *** [_arrange] and [arrange], step by step *)

Lemma _arrange_unfold (N : Nester) shapes excludes bin minobjd prind stopfn w :
  _arrange N shapes excludes bin minobjd prind stopfn w =
  let '(arranger, inp, w') := _arrange_setup shapes excludes bin minobjd prind stopfn w in
  AutoArranger_call N arranger inp w'.
Proof.
  unfold _arrange, _arrange_setup.
  destruct (erase_outside bin excludes) as [|e kept] eqn:Hkept.
  - now rewrite app_nil_r.
  - destruct (preload_spec (AutoArranger_ctor bin minobjd prind stopfn) (e :: kept))
      as (Hsnd & _).
    destruct (preload (AutoArranger_ctor bin minobjd prind stopfn) (e :: kept))
      as [arranger kept'] eqn:Hpre.
    simpl in Hsnd. subst kept'. rewrite warm_start_spec. simpl. reflexivity.
Qed.

Lemma AutoArranger_call_spec (N : Nester) (a : AutoArranger) (inp : list Item) (w : World) :
  AutoArranger_call N a inp w =
  (fst (select_and_place N (set_rtree [] a) inp (polls w)),
   mkWorld (binwidth w) (polls w + snd (select_and_place N (set_rtree [] a) inp (polls w)))
     (trace w ++ NesterExecute (set_rtree [] a) inp ::
        bins_events (stride_padding (binwidth w)) inp 0
          (fst (select_and_place N (set_rtree [] a) inp (polls w))))).
Proof.
  unfold AutoArranger_call, Nester_execute.
  destruct (select_and_place N (set_rtree [] a) inp (polls w)) as [bins n].
  rewrite apply_bins_spec. simpl. now rewrite <- app_assoc.
Qed.

Lemma _arrange_setup_world shapes excludes bin minobjd prind stopfn w :
  binwidth (snd (_arrange_setup shapes excludes bin minobjd prind stopfn w)) = binwidth w /\
  polls (snd (_arrange_setup shapes excludes bin minobjd prind stopfn w)) = polls w.
Proof.
  unfold _arrange_setup. now destruct (erase_outside bin excludes).
Qed.

(** The whole of [arrange] on well-formed polygons: the answer is that of
    the final poll of the stop predicate, and the trace is the warm start's
    callback, the run of the engine, and the callbacks of the placed
    parts, bin after bin, with [binwidth] still 0. *)
Lemma arrange_spec (N : Nester) arrangables excludes min_obj_distance bedhint
  progressind stopcondition items fixeditems :
  process_arrangables arrangables [] = Some items ->
  process_excludes excludes [] = Some fixeditems ->
  arrange N arrangables excludes min_obj_distance bedhint progressind stopcondition =
  (final_answer stopcondition
     (snd (engine_result N items fixeditems min_obj_distance bedhint progressind
             stopcondition)),
   mkWorld 0
     (snd (engine_result N items fixeditems min_obj_distance bedhint progressind
             stopcondition))
     (trace (snd (arrange_setup items fixeditems min_obj_distance bedhint progressind
                    stopcondition)) ++
      NesterExecute
        (engine_arranger items fixeditems min_obj_distance bedhint progressind
           stopcondition)
        (engine_input items fixeditems min_obj_distance bedhint progressind
           stopcondition) ::
      bins_events (stride_padding 0)
        (engine_input items fixeditems min_obj_distance bedhint progressind stopcondition)
        0
        (fst (engine_result N items fixeditems min_obj_distance bedhint progressind
                stopcondition)))).
Proof.
  intros Hitems Hfixed. unfold arrange. rewrite Hitems, Hfixed.
  rewrite _arrange_unfold.
  unfold engine_result, engine_arranger, engine_input, arrange_setup.
  pose proof (_arrange_setup_world items fixeditems (arrange_bin bedhint)
                min_obj_distance progressind stopcondition (mkWorld 0 0 [])) as [Hbw Hp].
  destruct (_arrange_setup items fixeditems (arrange_bin bedhint) min_obj_distance
              progressind stopcondition (mkWorld 0 0 [])) as [[arranger inp] w'].
  simpl in Hbw, Hp. rewrite AutoArranger_call_spec. rewrite Hbw, Hp. simpl.
  destruct stopcondition as [stop|]; [|reflexivity].
  simpl. now destruct (stop _).
Qed.

(** *** What the engine is run on *)

Lemma engine_runs_app (tr1 tr2 : list Event) :
  engine_runs (tr1 ++ tr2) = engine_runs tr1 ++ engine_runs tr2.
Proof. apply flat_map_app. Qed.

Lemma engine_runs_apply_event (offset : Z) (itm : Item) :
  engine_runs (apply_event offset itm) = [].
Proof. unfold apply_event. now destruct (applyfn_ itm) as [[h]|]. Qed.

Lemma engine_runs_bin_events (offset : Z) (inp : list Item) (bin : list Placement) :
  engine_runs (bin_events offset inp bin) = [].
Proof.
  induction bin as [|p bin IH]; [reflexivity|].
  unfold bin_events in *. simpl. rewrite engine_runs_app, IH, app_nil_r.
  destruct (place inp p); [apply engine_runs_apply_event | reflexivity].
Qed.

Lemma engine_runs_bins_events (stride : Z) (inp : list Item) (bins : list (list Placement)) :
  forall k, engine_runs (bins_events stride inp k bins) = [].
Proof.
  induction bins as [|bin bins IH]; intros k; [reflexivity|].
  simpl. now rewrite engine_runs_app, engine_runs_bin_events, IH.
Qed.

Lemma engine_runs_seated_events (a : AutoArranger) (binbb : Box) (shapes : list Item) :
  engine_runs (seated_events a binbb shapes) = [].
Proof.
  unfold seated_events.
  destruct (seated_item a binbb shapes); [apply engine_runs_apply_event | reflexivity].
Qed.

Lemma engine_runs_setup shapes excludes bin minobjd prind stopfn :
  engine_runs (trace (snd (_arrange_setup shapes excludes bin minobjd prind stopfn
                             (mkWorld 0 0 [])))) = [].
Proof.
  unfold _arrange_setup. destruct (erase_outside bin excludes); [reflexivity|].
  simpl. apply engine_runs_seated_events.
Qed.

(** The arranger of [_arrange] keeps the bin and the distance it was
    constructed with. *)
Lemma _arrange_setup_packer shapes excludes bin minobjd prind stopfn w :
  pck_dist (m_pck (fst (fst (_arrange_setup shapes excludes bin minobjd prind stopfn w))))
    = minobjd /\
  pck_bin (m_pck (fst (fst (_arrange_setup shapes excludes bin minobjd prind stopfn w))))
    = bin /\
  m_bin (fst (fst (_arrange_setup shapes excludes bin minobjd prind stopfn w))) = bin.
Proof.
  unfold _arrange_setup.
  destruct (erase_outside bin excludes) as [|e kept]; [now repeat split|].
  destruct (preload_spec (AutoArranger_ctor bin minobjd prind stopfn) (e :: kept))
    as (_ & _ & Hbin & Hpbin & Hdist & _).
  simpl. rewrite Hbin, Hpbin, Hdist. now repeat split.
Qed.

(** On well-formed polygons the engine runs exactly once. *)
Lemma arrange_engine_runs (N : Nester) arrangables excludes min_obj_distance bedhint
  progressind stopcondition items fixeditems :
  process_arrangables arrangables [] = Some items ->
  process_excludes excludes [] = Some fixeditems ->
  engine_runs (trace (snd (arrange N arrangables excludes min_obj_distance bedhint
                             progressind stopcondition))) =
  [(engine_arranger items fixeditems min_obj_distance bedhint progressind stopcondition,
    engine_input items fixeditems min_obj_distance bedhint progressind stopcondition)].
Proof.
  intros Hitems Hfixed.
  rewrite (arrange_spec N _ _ _ _ _ _ _ _ Hitems Hfixed). simpl.
  rewrite engine_runs_app. unfold arrange_setup. rewrite engine_runs_setup. simpl.
  now rewrite engine_runs_bins_events.
Qed.

(** [md = (md % 2) ? md / 2 + 1 : md / 2] rounds a non-negative [md / 2]
    up. *)
Lemma halve_up_ceiling (md : Z) : 0 <= md -> halve_up md = (md + 1) / 2.
Proof.
  intros Hmd. unfold halve_up.
  rewrite Z.rem_mod_nonneg, Z.quot_div_nonneg by lia.
  destruct (Z.eqb_spec (md mod 2) 0) as [H0 | H0];
    Z.div_mod_to_equations; lia.
Qed.

(** C1 (as amended).  [arrange] computes the halved clearance
    [md = (min_obj_distance - SCALED_EPSILON) / 2], rounded up when the
    difference is not negative, and does not use it: the engine runs once,
    on an arranger whose distance is [min_obj_distance] itself. *)
Theorem arrange_distance_unhalved (N : Nester) arrangables excludes min_obj_distance
  bedhint progressind stopcondition items fixeditems :
  process_arrangables arrangables [] = Some items ->
  process_excludes excludes [] = Some fixeditems ->
  engine_runs (trace (snd (arrange N arrangables excludes min_obj_distance bedhint
                             progressind stopcondition))) =
  [(engine_arranger items fixeditems min_obj_distance bedhint progressind stopcondition,
    engine_input items fixeditems min_obj_distance bedhint progressind stopcondition)] /\
  pck_dist (m_pck (engine_arranger items fixeditems min_obj_distance bedhint progressind
                     stopcondition)) = min_obj_distance /\
  (0 <= to_coord (of_coord min_obj_distance - SCALED_EPSILON)%float ->
   halved_distance min_obj_distance =
   (to_coord (of_coord min_obj_distance - SCALED_EPSILON)%float + 1) / 2).
Proof.
  intros Hitems Hfixed. split; [now apply arrange_engine_runs|]. split.
  - unfold engine_arranger, arrange_setup. simpl.
    apply _arrange_setup_packer.
  - intros Hmd. unfold halved_distance. now apply halve_up_ceiling.
Qed.

(** The bin [arrange] builds does not depend on the type of the hint. *)
Lemma arrange_bin_any_type (t : BedShapeType) (bedhint : BedShapeHint) :
  arrange_bin (mkBedShapeHint t (shape bedhint)) = BinBox (Box_infinite (hint_center bedhint)).
Proof. now destruct t. Qed.

(** C3.  Whatever the type of the hint, [arrange] runs the engine once, on
    an arranger whose bin is the infinite box around the centre of
    [bedhint.shape.box]; a hint of any other type with the same shapes
    gives the same run. *)
Theorem arrange_bin_is_infinite (N : Nester) arrangables excludes min_obj_distance
  bedhint progressind stopcondition items fixeditems :
  process_arrangables arrangables [] = Some items ->
  process_excludes excludes [] = Some fixeditems ->
  engine_runs (trace (snd (arrange N arrangables excludes min_obj_distance bedhint
                             progressind stopcondition))) =
  [(engine_arranger items fixeditems min_obj_distance bedhint progressind stopcondition,
    engine_input items fixeditems min_obj_distance bedhint progressind stopcondition)] /\
  m_bin (engine_arranger items fixeditems min_obj_distance bedhint progressind
           stopcondition) = BinBox (Box_infinite (hint_center bedhint)) /\
  pck_bin (m_pck (engine_arranger items fixeditems min_obj_distance bedhint progressind
                    stopcondition)) = BinBox (Box_infinite (hint_center bedhint)) /\
  (forall t,
     arrange N arrangables excludes min_obj_distance (mkBedShapeHint t (shape bedhint))
       progressind stopcondition =
     arrange N arrangables excludes min_obj_distance bedhint progressind stopcondition).
Proof.
  intros Hitems Hfixed. split; [now apply arrange_engine_runs|].
  pose proof (arrange_bin_any_type (type bedhint) bedhint) as Hbin.
  assert (Hsame : arrange_bin bedhint = BinBox (Box_infinite (hint_center bedhint))).
  { rewrite <- Hbin. now destruct bedhint. }
  destruct (_arrange_setup_packer items fixeditems (arrange_bin bedhint) min_obj_distance
              progressind stopcondition (mkWorld 0 0 [])) as (_ & Hpbin & Hmbin).
  split; [|split].
  - unfold engine_arranger, arrange_setup. simpl. now rewrite Hmbin.
  - unfold engine_arranger, arrange_setup. simpl. now rewrite Hpbin.
  - intros t. unfold arrange. now rewrite arrange_bin_any_type, Hsame.
Qed.

(** The answer of [arrange] for every engine.  On well-formed polygons
    [arrange] returns false exactly when the stop predicate answers true at
    its final poll, after the polls of the engine; with a stop predicate
    that never fires it returns true, and with a null stop predicate it
    throws. *)
Lemma arrange_answer (N : Nester) arrangables excludes min_obj_distance bedhint
  progressind (stop : StopFn) items fixeditems :
  process_arrangables arrangables [] = Some items ->
  process_excludes excludes [] = Some fixeditems ->
  fst (arrange N arrangables excludes min_obj_distance bedhint progressind (Some stop)) =
    Returned (negb (stop (snd (engine_result N items fixeditems min_obj_distance bedhint
                                 progressind (Some stop))))) /\
  ((forall n, stop n = false) ->
   fst (arrange N arrangables excludes min_obj_distance bedhint progressind (Some stop)) =
     Returned true) /\
  fst (arrange N arrangables excludes min_obj_distance bedhint progressind None) =
    Thrown_bad_function_call.
Proof.
  intros Hitems Hfixed.
  rewrite (arrange_spec N _ _ _ _ _ (Some stop) _ _ Hitems Hfixed).
  rewrite (arrange_spec N _ _ _ _ _ None _ _ Hitems Hfixed). simpl.
  repeat split. intros Hnever. now rewrite Hnever.
Qed.

(** With a stride of [stride_padding 0] every bin is laid out at offset 0. *)
Lemma bins_events_no_stride (inp : list Item) (bins : list (list Placement)) : forall k,
  bins_events (stride_padding 0) inp k bins = flat_map (bin_events 0 inp) bins.
Proof.
  induction bins as [|bin bins IH]; intros k; [reflexivity|].
  cbn [bins_events flat_map]. rewrite IH.
  replace (Z.of_nat k * stride_padding 0) with 0
    by (change (stride_padding 0) with 0; lia).
  reflexivity.
Qed.


(** *** The engine on the infinite bin *)






(** *** The warm start of [_arrange] *)

(** [is_colliding] asks whether the box of the item meets a box stored in
    [m_rtree]. *)
Lemma is_colliding_spec (a : AutoArranger) (itm : Item) :
  is_colliding a itm =
  existsb (fun e => bgi_intersects (Item_boundingBox itm) (fst e)) (m_rtree a).
Proof.
  unfold is_colliding, rtree_query.
  destruct (m_rtree a) as [|e0 t]; [reflexivity|].
  cbn [rtree_empty]. generalize (e0 :: t). intros l.
  induction l as [|e l IH]; [reflexivity|].
  simpl. destruct (bgi_intersects (Item_boundingBox itm) (fst e)); [reflexivity|exact IH].
Qed.

Lemma warm_start_first_free (a : AutoArranger) (binbb : Box) (pre : list Item)
  (itm : Item) (post : list Item) :
  (forall q, In q pre -> is_colliding a (centered binbb q) = true) ->
  is_colliding a (centered binbb itm) = false ->
  seated_item a binbb (pre ++ itm :: post) = Some (markAsFixed (centered binbb itm)) /\
  left_movable a binbb (pre ++ itm :: post) = map (centered binbb) pre ++ post.
Proof.
  intros Hpre Hfree. induction pre as [|q pre IH]; simpl.
  - now rewrite Hfree.
  - rewrite (Hpre q (or_introl eq_refl)).
    destruct IH as [IHs IHl]; [intros q' Hq'; apply Hpre; now right|].
    now rewrite IHs, IHl.
Qed.

Lemma warm_start_all_collide (a : AutoArranger) (binbb : Box) (shapes : list Item) :
  (forall q, In q shapes -> is_colliding a (centered binbb q) = true) ->
  seated_item a binbb shapes = None /\
  left_movable a binbb shapes = map (centered binbb) shapes.
Proof.
  intros Hall. induction shapes as [|q shapes IH]; simpl; [easy|].
  rewrite (Hall q (or_introl eq_refl)).
  destruct IH as [IHs IHl]; [intros q' Hq'; apply Hall; now right|].
  now rewrite IHs, IHl.
Qed.

Lemma _arrange_preloaded (N : Nester) shapes excludes bin minobjd prind stopfn w :
  erase_outside bin excludes <> [] ->
  _arrange N shapes excludes bin minobjd prind stopfn w =
  AutoArranger_call N
    (fst (preload (AutoArranger_ctor bin minobjd prind stopfn) (erase_outside bin excludes)))
    (left_movable
       (fst (preload (AutoArranger_ctor bin minobjd prind stopfn)
               (erase_outside bin excludes)))
       (sl_boundingBox_bin bin) shapes ++ map markAsFixed (erase_outside bin excludes))
    (mkWorld (binwidth w) (polls w)
       (trace w ++
        seated_events
          (fst (preload (AutoArranger_ctor bin minobjd prind stopfn)
                  (erase_outside bin excludes)))
          (sl_boundingBox_bin bin) shapes)).
Proof.
  intros Hkept. rewrite _arrange_unfold. unfold _arrange_setup.
  destruct (erase_outside bin excludes) as [|e kept]; [contradiction|reflexivity].
Qed.

(** C6 (as amended).  When fixed items remain after the filtering,
    [_arrange] visits the movable items in order, translating each visited
    item by the difference between the centre of the bin's bounding box and
    the centre of its own; the first visited item that does not collide with
    an entry of [m_rtree] is marked fixed, gets its callback with bin index
    0 and leaves the list; the items visited before it stay in the list,
    centred, the items after it are untouched; when every item collides,
    none is seated. *)
Theorem _arrange_warm_start (N : Nester) shapes excludes bin minobjd prind stopfn w :
  erase_outside bin excludes <> [] ->
  let arranger := fst (preload (AutoArranger_ctor bin minobjd prind stopfn)
                         (erase_outside bin excludes)) in
  let binbb := sl_boundingBox_bin bin in
  let kept := map markAsFixed (erase_outside bin excludes) in
  (forall itm,
     is_colliding arranger itm =
     existsb (fun e => bgi_intersects (Item_boundingBox itm) (fst e)) (m_rtree arranger)) /\
  (forall pre itm post,
     shapes = pre ++ itm :: post ->
     (forall q, In q pre -> is_colliding arranger (centered binbb q) = true) ->
     is_colliding arranger (centered binbb itm) = false ->
     _arrange N shapes excludes bin minobjd prind stopfn w =
     AutoArranger_call N arranger ((map (centered binbb) pre ++ post) ++ kept)
       (callApplyFunction (markAsFixed (centered binbb itm)) 0 w)) /\
  ((forall q, In q shapes -> is_colliding arranger (centered binbb q) = true) ->
   _arrange N shapes excludes bin minobjd prind stopfn w =
   AutoArranger_call N arranger (map (centered binbb) shapes ++ kept) w).
Proof.
  intros Hkept arranger binbb kept. split; [|split].
  - intros itm. apply is_colliding_spec.
  - intros pre itm post -> Hpre Hfree.
    rewrite (_arrange_preloaded N _ _ _ _ _ _ w Hkept).
    fold arranger binbb kept. unfold seated_events.
    destruct (warm_start_first_free arranger binbb pre itm post Hpre Hfree) as [Hs Hl].
    rewrite Hs, Hl, callApplyFunction_spec. reflexivity.
  - intros Hall.
    rewrite (_arrange_preloaded N _ _ _ _ _ _ w Hkept).
    fold arranger binbb kept. unfold seated_events.
    destruct (warm_start_all_collide arranger binbb shapes Hall) as [Hs Hl].
    now rewrite Hs, Hl, app_nil_r, world_eta.
Qed.

(** *** The fixed items *)

Lemma erase_outside_spec (bin : Bin) (excludes : list Item) (it : Item) :
  In it (erase_outside bin excludes) <->
  In it excludes /\ sl_isInside (Item_transformedShape it) bin = true.
Proof. unfold erase_outside. apply filter_In. Qed.

(** C10.  The fixed items [_arrange] works with are those whose
    transformed shape is inside the bin; when none is left, the arranger is
    the one the constructor built, the movable items are untouched and are
    the whole input of the engine; otherwise exactly the kept items are
    marked fixed, indexed in [m_rtree] and appended to the input. *)
Theorem _arrange_erases_outside (N : Nester) shapes excludes bin minobjd prind stopfn w :
  let kept := erase_outside bin excludes in
  let ctor := AutoArranger_ctor bin minobjd prind stopfn in
  (forall it, In it kept <->
              In it excludes /\ sl_isInside (Item_transformedShape it) bin = true) /\
  (kept = [] ->
   _arrange N shapes excludes bin minobjd prind stopfn w =
   AutoArranger_call N ctor shapes w) /\
  (kept <> [] ->
   snd (preload ctor kept) = map markAsFixed kept /\
   m_rtree (fst (preload ctor kept)) =
     combine (map Item_boundingBox (map markAsFixed kept)) (seq 0 (length kept)) /\
   _arrange N shapes excludes bin minobjd prind stopfn w =
   AutoArranger_call N (fst (preload ctor kept))
     (left_movable (fst (preload ctor kept)) (sl_boundingBox_bin bin) shapes ++
      map markAsFixed kept)
     (mkWorld (binwidth w) (polls w)
        (trace w ++
         seated_events (fst (preload ctor kept)) (sl_boundingBox_bin bin) shapes))).
Proof.
  intros kept ctor. split; [|split].
  - intros it. apply erase_outside_spec.
  - intros Hnone. rewrite _arrange_unfold. unfold _arrange_setup.
    fold kept. now rewrite Hnone.
  - intros Hsome.
    destruct (preload_spec ctor kept) as (Hsnd & Hrtree & _).
    split; [exact Hsnd|]. split; [exact Hrtree|].
    now apply _arrange_preloaded.
Qed.

(** *** Who receives a result *)

(** [process_arrangeable] appends one item that carries the function it
    was given. *)
Lemma process_arrangeable_applyfn (P : option ApplyFn -> Prop) (h : Arrangeable)
  (outp : list Item) (f : option ApplyFn) (r : list Item) :
  process_arrangeable h outp f = Some r ->
  Forall (fun it => P (applyfn_ it)) outp -> P f ->
  Forall (fun it => P (applyfn_ it)) r.
Proof.
  unfold process_arrangeable. destruct (get_arrange_polygon h) as [[p offs] rotation].
  destruct (Slic3rMultiPoint_to_ClipperPath _) as [|firstp path]; [discriminate|].
  intros [= <-] Houtp Hf. apply Forall_app. split; [exact Houtp|].
  constructor; [exact Hf | constructor].
Qed.

Lemma process_excludes_null (excludes : list Arrangeable) : forall fixeditems r,
  process_excludes excludes fixeditems = Some r ->
  Forall (fun it => applyfn_ it = None) fixeditems ->
  Forall (fun it => applyfn_ it = None) r.
Proof.
  induction excludes as [|fixed rest IH]; intros fixeditems r; simpl.
  - now intros [= <-].
  - destruct (process_arrangeable fixed fixeditems None) as [fixeditems'|] eqn:Hp;
      [|discriminate].
    intros Hr Hnull. apply (IH _ _ Hr).
    now apply (process_arrangeable_applyfn (fun f => f = None) _ _ _ _ Hp).
Qed.

Lemma process_arrangables_callback (hosts arrangables : list Arrangeable) :
  forall items r,
  process_arrangables arrangables items = Some r ->
  incl arrangables hosts ->
  Forall (fun it => exists h, applyfn_ it = Some (ApplyResultTo h) /\ In h hosts) items ->
  Forall (fun it => exists h, applyfn_ it = Some (ApplyResultTo h) /\ In h hosts) r.
Proof.
  induction arrangables as [|a rest IH]; intros items r; simpl.
  - now intros [= <-].
  - destruct (process_arrangeable a items (Some (ApplyResultTo a))) as [items'|] eqn:Hp;
      [|discriminate].
    intros Hr Hincl Hitems. apply (IH _ _ Hr).
    + intros h Hh. apply Hincl. now right.
    + apply (process_arrangeable_applyfn
               (fun f => exists h, f = Some (ApplyResultTo h) /\ In h hosts) _ _ _ _ Hp Hitems).
      exists a. split; [reflexivity | apply Hincl; now left].
Qed.

Lemma callback_registered (hosts : list Arrangeable) (items : list Item) :
  Forall (fun it => exists h, applyfn_ it = Some (ApplyResultTo h) /\ In h hosts) items ->
  Forall (registered hosts) items.
Proof.
  apply Forall_impl. intros it (h & Hf & Hin). unfold registered. now rewrite Hf.
Qed.

Lemma null_registered (hosts : list Arrangeable) (items : list Item) :
  Forall (fun it => applyfn_ it = None) items -> Forall (registered hosts) items.
Proof.
  apply Forall_impl. intros it Hf. unfold registered. now rewrite Hf.
Qed.

Lemma apply_event_registered (hosts : list Arrangeable) (offset : Z) (itm : Item)
  h x y r :
  registered hosts itm -> In (ApplyArrangeResult h x y r) (apply_event offset itm) ->
  In h hosts.
Proof.
  unfold registered, apply_event. destruct (applyfn_ itm) as [[h']|]; [|now intros _ []].
  intros Hreg [[= <- _ _ _] | []]. exact Hreg.
Qed.

Lemma place_registered (hosts : list Arrangeable) (inp : list Item) (p : Placement)
  (itm : Item) :
  Forall (registered hosts) inp -> place inp p = Some itm -> registered hosts itm.
Proof.
  unfold place. intros Hinp.
  destruct (nth_error inp (placed_index p)) as [itm0|] eqn:Hnth; [|discriminate].
  intros [= <-]. apply nth_error_In in Hnth.
  rewrite Forall_forall in Hinp. exact (Hinp _ Hnth).
Qed.

Lemma bins_events_registered (hosts : list Arrangeable) (stride : Z) (inp : list Item)
  (bins : list (list Placement)) h x y r :
  Forall (registered hosts) inp ->
  forall k, In (ApplyArrangeResult h x y r) (bins_events stride inp k bins) -> In h hosts.
Proof.
  intros Hinp. induction bins as [|bin bins IH]; intros k; simpl; [now intros []|].
  intros Hin. apply in_app_or in Hin. destruct Hin as [Hin | Hin]; [|now apply (IH (S k))].
  unfold bin_events in Hin. apply in_flat_map in Hin. destruct Hin as (p & _ & Hin).
  destruct (place inp p) as [itm|] eqn:Hplace; [|now destruct Hin].
  apply (apply_event_registered hosts (Z.of_nat k * stride) itm h x y r); [|exact Hin].
  now apply (place_registered hosts inp p).
Qed.

Lemma warm_start_registered (hosts : list Arrangeable) (a : AutoArranger) (binbb : Box)
  (shapes : list Item) :
  Forall (registered hosts) shapes ->
  Forall (registered hosts) (left_movable a binbb shapes) /\
  match seated_item a binbb shapes with
  | None => True
  | Some itm => registered hosts itm
  end.
Proof.
  induction 1 as [|itm rest Hitm Hrest [IHl IHs]]; simpl; [easy|].
  destruct (is_colliding a (centered binbb itm)).
  - split; [constructor; [exact Hitm | exact IHl] | exact IHs].
  - split; [exact Hrest | exact Hitm].
Qed.

Lemma markAsFixed_registered (hosts : list Arrangeable) (items : list Item) :
  Forall (registered hosts) items -> Forall (registered hosts) (map markAsFixed items).
Proof.
  induction 1 as [|itm rest Hitm Hrest IH]; constructor; assumption.
Qed.

Lemma _arrange_setup_registered (hosts : list Arrangeable) shapes excludes bin minobjd
  prind stopfn h x y r :
  Forall (registered hosts) shapes -> Forall (registered hosts) excludes ->
  Forall (registered hosts)
    (snd (fst (_arrange_setup shapes excludes bin minobjd prind stopfn (mkWorld 0 0 [])))) /\
  (In (ApplyArrangeResult h x y r)
      (trace (snd (_arrange_setup shapes excludes bin minobjd prind stopfn
                     (mkWorld 0 0 [])))) -> In h hosts).
Proof.
  intros Hshapes Hexcl. unfold _arrange_setup.
  assert (Hkept : Forall (registered hosts) (erase_outside bin excludes)).
  { rewrite Forall_forall in *. intros it Hit. apply Hexcl.
    now apply erase_outside_spec in Hit. }
  destruct (erase_outside bin excludes) as [|e kept]; [now split|].
  set (arranger := fst (preload _ _)).
  destruct (warm_start_registered hosts arranger (sl_boundingBox_bin bin) shapes Hshapes)
    as [Hleft Hseat].
  split.
  - apply Forall_app. split; [exact Hleft | now apply markAsFixed_registered].
  - simpl. unfold seated_events.
    destruct (seated_item arranger (sl_boundingBox_bin bin) shapes) as [itm|];
      [|now intros []].
    now apply apply_event_registered.
Qed.

(** C9.  Every item built from a fixed handle carries a null apply
    function, every item built from a movable handle carries the lambda of
    that handle, and every call of [apply_arrange_result] that [arrange]
    makes goes to a handle of the movable list: none comes from a fixed
    item. *)
Theorem fixed_handles_get_no_result (N : Nester) arrangables excludes min_obj_distance
  bedhint progressind stopcondition :
  (forall fixeditems, process_excludes excludes [] = Some fixeditems ->
     Forall (fun it => applyfn_ it = None) fixeditems) /\
  (forall items, process_arrangables arrangables [] = Some items ->
     Forall (fun it => exists h, applyfn_ it = Some (ApplyResultTo h) /\ In h arrangables)
       items) /\
  (forall h x y r,
     In (ApplyArrangeResult h x y r)
        (trace (snd (arrange N arrangables excludes min_obj_distance bedhint progressind
                       stopcondition))) ->
     In h arrangables) /\
  (forall fixed x y r,
     In fixed excludes -> ~ In fixed arrangables ->
     ~ In (ApplyArrangeResult fixed x y r)
          (trace (snd (arrange N arrangables excludes min_obj_distance bedhint progressind
                         stopcondition)))).
Proof.
  assert (Hfixed : forall fixeditems, process_excludes excludes [] = Some fixeditems ->
            Forall (fun it => applyfn_ it = None) fixeditems).
  { intros fixeditems Hp. apply (process_excludes_null _ _ _ Hp). constructor. }
  assert (Hmov : forall items, process_arrangables arrangables [] = Some items ->
            Forall (fun it => exists h, applyfn_ it = Some (ApplyResultTo h) /\
                                        In h arrangables) items).
  { intros items Hp.
    apply (process_arrangables_callback arrangables _ _ _ Hp); [apply incl_refl|constructor]. }
  split; [exact Hfixed|]. split; [exact Hmov|].
  assert (Hcalls : forall h x y r,
            In (ApplyArrangeResult h x y r)
               (trace (snd (arrange N arrangables excludes min_obj_distance bedhint
                              progressind stopcondition))) ->
            In h arrangables);
    [|split; [exact Hcalls | intros fixed x y r _ Hnot Hin; exact (Hnot (Hcalls _ _ _ _ Hin))]].
  intros h x y r.
  destruct (process_arrangables arrangables []) as [items|] eqn:Hitems.
  - destruct (process_excludes excludes []) as [fixeditems|] eqn:Hfx.
    + rewrite (arrange_spec N _ _ _ _ _ _ _ _ Hitems Hfx). simpl.
      destruct (_arrange_setup_registered arrangables items fixeditems
                  (arrange_bin bedhint) min_obj_distance progressind stopcondition h x y r)
        as [Hinp Hseat].
      * apply callback_registered. now apply Hmov.
      * apply null_registered. now apply Hfixed.
      * intros Hin. apply in_app_or in Hin. destruct Hin as [Hin | [Hin | Hin]].
        -- now apply Hseat.
        -- discriminate.
        -- unfold engine_input, arrange_setup in Hin.
           exact (bins_events_registered arrangables _ _ _ h x y r Hinp 0%nat Hin).
    + unfold arrange. rewrite Hitems, Hfx. now intros [].
  - unfold arrange. rewrite Hitems. now intros [].
Qed.

End FacadeTheorems.

(** ** Concrete runs *)

Section ConcreteRuns.
Local Existing Instances Reference.nest2d Reference.slic3r.

Local Open Scope Z_scope.

(** The two hosts are well formed: [arrange] builds [two_items] for them. *)
Lemma two_hosts_processed : process_arrangables two_hosts [] = Some two_items.
Proof. vm_compute. reflexivity. Qed.

Lemma arrange_distance_witness :
  process_arrangables two_hosts [] = Some two_items /\
  process_excludes [] [] = Some [] /\
  engine_runs (trace (snd (arrange one_bin two_hosts [] 6000000 hint200 None
                             (Some never_stop)))) =
  [(engine_arranger two_items [] 6000000 hint200 None (Some never_stop),
    engine_input two_items [] 6000000 hint200 None (Some never_stop))] /\
  pck_dist (m_pck (engine_arranger two_items [] 6000000 hint200 None (Some never_stop)))
    = 6000000 /\
  halved_distance 6000000 = 2999950.
Proof.
  pose proof two_hosts_processed as H1.
  assert (H2 : process_excludes [] [] = Some []) by reflexivity.
  destruct (arrange_distance_unhalved one_bin two_hosts [] 6000000 hint200 None
              (Some never_stop) two_items [] H1 H2) as (Hruns & Hdist & Hhalf).
  split; [exact H1|]. split; [exact H2|]. split; [exact Hruns|]. split; [exact Hdist|].
  rewrite Hhalf; vm_compute; [reflexivity | discriminate].
Defined.

(** C1, as stated, fails for a clearance of 6 mm: the halved value is
    2,999,950 and the arranger is given 6,000,000. *)
Lemma arranger_gets_full_distance :
  map (fun run => pck_dist (m_pck (fst run)))
      (engine_runs (trace (snd (arrange one_bin two_hosts [] 6000000 hint200 None
                                  (Some never_stop))))) = [6000000] /\
  halved_distance 6000000 = 2999950.
Proof. split; vm_compute; reflexivity. Qed.


(** The answer follows the stop predicate alone: with a predicate that
    fires the same run returns false, and with a null predicate the final
    call throws. *)
Example arrange_answer_follows_stop :
  fst (arrange one_bin two_hosts [] 6000000 hint200 None (Some (fun _ => true))) =
    Returned false /\
  fst (arrange one_bin two_hosts [] 6000000 hint200 None None) = Thrown_bad_function_call.
Proof. split; vm_compute; reflexivity. Qed.

Lemma arrange_bin_witness :
  process_arrangables two_hosts [] = Some two_items /\
  process_excludes [] [] = Some [] /\
  m_bin (engine_arranger two_items [] 6000000 hint200 None (Some never_stop)) =
    BinBox (Box_infinite (mkPoint (mm 100) (mm 100))) /\
  arrange one_bin two_hosts [] 6000000 (mkBedShapeHint CIRCLE (shape hint200)) None
    (Some never_stop) =
  arrange one_bin two_hosts [] 6000000 hint200 None (Some never_stop).
Proof.
  pose proof two_hosts_processed as H1.
  assert (H2 : process_excludes [] [] = Some []) by reflexivity.
  destruct (arrange_bin_is_infinite one_bin two_hosts [] 6000000 hint200 None
              (Some never_stop) two_items [] H1 H2) as (_ & Hbin & _ & Htype).
  split; [exact H1|]. split; [exact H2|]. split; [exact Hbin | exact (Htype CIRCLE)].
Defined.


Lemma _arrange_warm_start_witness :
  erase_outside (BinBox bed200) [fixed_part] <> [] /\
  _arrange one_bin [big_movable; small_movable] [fixed_part] (BinBox bed200) 0 None None
    (mkWorld 0 0 []) =
  AutoArranger_call one_bin preloaded200
    (([centered bed200 big_movable] ++ []) ++ [markAsFixed fixed_part])
    (callApplyFunction (markAsFixed (centered bed200 small_movable)) 0 (mkWorld 0 0 [])).
Proof.
  assert (Hkept : erase_outside (BinBox bed200) [fixed_part] <> [])
    by (vm_compute; discriminate).
  split; [exact Hkept|].
  destruct (_arrange_warm_start one_bin [big_movable; small_movable] [fixed_part]
              (BinBox bed200) 0 None None (mkWorld 0 0 []) Hkept) as (_ & Hfirst & _).
  apply (Hfirst [big_movable] small_movable []).
  - reflexivity.
  - intros q [<- | []]. vm_compute. reflexivity.
  - vm_compute. reflexivity.
Defined.

(** C6, as stated, fails when the first movable part collides: the 60 mm
    square stays in the list, centred, and the second part, the 10 mm
    square, is seated and its host is called. *)
Lemma second_part_is_seated :
  is_colliding preloaded200 (centered bed200 big_movable) = true /\
  fst (warm_start preloaded200 bed200 [big_movable; small_movable] (mkWorld 0 0 [])) =
    [centered bed200 big_movable] /\
  applied_results
    (trace (snd (warm_start preloaded200 bed200 [big_movable; small_movable]
                   (mkWorld 0 0 [])))) = [(2%nat, 95%float, 95%float)].
Proof. repeat split; vm_compute; reflexivity. Qed.

(** A fixed part that sticks out of the bed is erased; the one inside is
    kept. *)
Example erase_outside_bed200 :
  erase_outside (BinBox bed200) [fixed_part; outside_part] = [fixed_part].
Proof. vm_compute. reflexivity. Qed.

Lemma _arrange_erases_outside_witness :
  erase_outside (BinBox bed200) [outside_part] = [] /\
  _arrange one_bin [big_movable; small_movable] [outside_part] (BinBox bed200) 0 None None
    (mkWorld 0 0 []) =
  AutoArranger_call one_bin (AutoArranger_ctor (BinBox bed200) 0 None None)
    [big_movable; small_movable] (mkWorld 0 0 []).
Proof.
  assert (Hnone : erase_outside (BinBox bed200) [outside_part] = [])
    by (vm_compute; reflexivity).
  split; [exact Hnone|].
  destruct (_arrange_erases_outside one_bin [big_movable; small_movable] [outside_part]
              (BinBox bed200) 0 None None (mkWorld 0 0 [])) as (_ & Hskip & _).
  exact (Hskip Hnone).
Defined.

Lemma fixed_handles_witness :
  In fixed_host [fixed_host] /\ ~ In fixed_host two_hosts /\
  (forall x y r,
     ~ In (ApplyArrangeResult fixed_host x y r)
          (trace (snd (arrange one_bin two_hosts [fixed_host] 6000000 hint200 None
                         (Some never_stop))))) /\
  applied_results (trace (snd (arrange one_bin two_hosts [fixed_host] 6000000 hint200 None
                                 (Some never_stop)))) =
    [(1%nat, 90%float, 90%float); (2%nat, 90%float, 90%float)].
Proof.
  assert (Hin : In fixed_host [fixed_host]) by (left; reflexivity).
  assert (Hnot : ~ In fixed_host two_hosts).
  { intros [H | [H | []]]; apply (f_equal address) in H; discriminate H. }
  destruct (fixed_handles_get_no_result one_bin two_hosts [fixed_host] 6000000 hint200
              None (Some never_stop)) as (_ & _ & _ & Hfixed).
  split; [exact Hin|]. split; [exact Hnot|]. split.
  - intros x y r. exact (Hfixed fixed_host x y r Hin Hnot).
  - vm_compute. reflexivity.
Defined.

End ConcreteRuns.

(** * Further properties of the code *)

Section IndexRebuild.
Context {nest2d : Libnest2d}.

Lemma index_items_entries bin_area items : forall k rtree smallsrtree,
  index_items bin_area k items rtree smallsrtree =
  (rtree ++ big_entries bin_area k items, smallsrtree ++ all_entries k items).
Proof.
  unfold big_entries, all_entries.
  induction items as [|itm rest IH]; intros k rtree smallsrtree; simpl.
  - now rewrite !app_nil_r.
  - rewrite IH. unfold rtree_insert.
    destruct (isBig bin_area (Item_area itm)); simpl; now rewrite <- !app_assoc.
Qed.

Lemma in_combine_seq (A : Type) (l : list A) : forall k x j,
  In (x, j) (combine l (seq k (length l))) <->
  (k <= j)%nat /\ nth_error l (j - k) = Some x.
Proof.
  induction l as [|a l IH]; intros k x j; cbn [length seq combine In].
  - split; [intros [] | intros [_ H]]. now destruct (j - k)%nat.
  - rewrite IH. split.
    + intros [Heq | [Hle Hnth]].
      * injection Heq as -> ->. rewrite Nat.sub_diag. now split.
      * split; [lia|]. replace (j - k)%nat with (S (j - S k)) by lia. exact Hnth.
    + intros [Hle Hnth]. destruct (Nat.eq_dec j k) as [-> | Hne].
      * rewrite Nat.sub_diag in Hnth. injection Hnth as ->. now left.
      * right. split; [lia|].
        replace (j - k)%nat with (S (j - S k)) in Hnth by lia. exact Hnth.
Qed.

Lemma filter_combine_seq_length (A : Type) (f : A -> bool) (l : list A) : forall k,
  length (filter (fun p => f (fst p)) (combine l (seq k (length l)))) =
  length (filter f l).
Proof.
  induction l as [|a l IH]; intros k; [reflexivity|].
  cbn [length seq combine filter fst]. destruct (f a); cbn [length]; now rewrite IH.
Qed.

Lemma all_entries_In (items : list Item) (bb : Box) (k : nat) :
  In (bb, k) (all_entries 0 items) <->
  exists itm, nth_error items k = Some itm /\ bb = Item_boundingBox itm.
Proof.
  unfold all_entries. rewrite in_map_iff. split.
  - intros ([itm j] & Heq & Hin). cbn in Heq. injection Heq as <- <-.
    apply in_combine_seq in Hin. rewrite Nat.sub_0_r in Hin.
    exists itm. now split.
  - intros (itm & Hnth & ->). exists (itm, k). split; [reflexivity|].
    apply in_combine_seq. rewrite Nat.sub_0_r. split; [lia | exact Hnth].
Qed.

Lemma big_entries_In (bin_area : double) (items : list Item) (bb : Box) (k : nat) :
  In (bb, k) (big_entries bin_area 0 items) <->
  exists itm, nth_error items k = Some itm /\ bb = Item_boundingBox itm /\
              isBig bin_area (Item_area itm) = true.
Proof.
  unfold big_entries. rewrite in_map_iff. split.
  - intros ([itm j] & Heq & Hin). cbn in Heq. injection Heq as <- <-.
    apply filter_In in Hin. destruct Hin as [Hin Hbig].
    apply in_combine_seq in Hin. rewrite Nat.sub_0_r in Hin.
    exists itm. repeat split; [apply Hin | exact Hbig].
  - intros (itm & Hnth & -> & Hbig). exists (itm, k). split; [reflexivity|].
    apply filter_In. split; [|exact Hbig].
    apply in_combine_seq. rewrite Nat.sub_0_r. split; [lia | exact Hnth].
Qed.

(** X1.  [before_packing] rebuilds both indices from its [items] alone: the
    index of all items holds exactly one entry per item, the box of the
    item under its position in [items]; the big index holds exactly those
    of the items with [area / bin_area > 0.02].  The entries of an earlier
    [before_packing] or of [preload] are gone, while the configuration
    [preload] wrote stays: the alignment DONT_ALIGN and its object
    function. *)
Theorem before_packing_rebuilds (a : AutoArranger) (merged_pile : MultiPolygon)
  (items remaining : ItemGroup) :
  (forall a', m_bin_area a' = m_bin_area a ->
     (forall bb k, In (bb, k) (m_smallsrtree (before_packing a' merged_pile items
                                                 remaining)) <->
        exists itm, nth_error items k = Some itm /\ bb = Item_boundingBox itm) /\
     (forall bb k, In (bb, k) (m_rtree (before_packing a' merged_pile items remaining)) <->
        exists itm, nth_error items k = Some itm /\ bb = Item_boundingBox itm /\
                    isBig (m_bin_area a) (Item_area itm) = true) /\
     length (m_smallsrtree (before_packing a' merged_pile items remaining)) =
       length items /\
     length (m_rtree (before_packing a' merged_pile items remaining)) =
       length (filter (fun itm => isBig (m_bin_area a) (Item_area itm)) items)) /\
  (forall merged_pile' items' remaining',
     before_packing (before_packing a merged_pile' items' remaining')
       merged_pile items remaining =
     before_packing a merged_pile items remaining) /\
  (forall fixeditems,
     m_bin_area (fst (preload a fixeditems)) = m_bin_area a /\
     alignment (m_pconf (before_packing (fst (preload a fixeditems)) merged_pile items
                           remaining)) = DONT_ALIGN /\
     object_function (m_pconf (before_packing (fst (preload a fixeditems)) merged_pile
                                 items remaining)) =
       Some (ObjFn_preload (sl_boundingBox_bin (m_bin a))
                           (Box_center (sl_boundingBox_bin (m_bin a))))).
Proof.
  split; [|split].
  - intros a' Harea.
    assert (Hr : m_rtree (before_packing a' merged_pile items remaining) =
                 big_entries (m_bin_area a) 0 items)
      by (unfold before_packing; rewrite index_items_entries, Harea; reflexivity).
    assert (Hs : m_smallsrtree (before_packing a' merged_pile items remaining) =
                 all_entries 0 items)
      by (unfold before_packing; rewrite index_items_entries; reflexivity).
    rewrite Hr, Hs. split; [|split; [|split]].
    + intros bb k. apply all_entries_In.
    + intros bb k. apply big_entries_In.
    + unfold all_entries. rewrite length_map, length_combine, length_seq. lia.
    + unfold big_entries. rewrite length_map.
      apply (filter_combine_seq_length Item
               (fun itm => isBig (m_bin_area a) (Item_area itm))).
  - intros merged_pile' items' remaining'. unfold before_packing.
    rewrite !index_items_entries. reflexivity.
  - intros fixeditems. unfold preload, before_packing.
    destruct (preload_loop 0 fixeditems (m_rtree a)).
    cbn [fst m_bin_area]. rewrite index_items_entries. cbn. auto.
Qed.

End IndexRebuild.

Section ObjectiveProperties.
Context {nest2d : Libnest2d}.

(** In the state [before_packing] sets up, [objfunc] indexes [m_items]
    within its range. *)
Lemma objfunc_defined_after_before_packing (a0 : AutoArranger)
  (merged_pile : MultiPolygon) (items remaining : ItemGroup) (item : Item)
  (bincenter : IntPoint) :
  exists score,
    objfunc (before_packing a0 merged_pile items remaining) item bincenter =
    Some (score, full_bb (before_packing a0 merged_pile items remaining) item).
Proof.
  set (a := before_packing a0 merged_pile items remaining).
  unfold objfunc. fold (full_bb a item).
  destruct (compute_case _ _).
  - fold (neighbours a item).
    rewrite (alignment_loop_min (m_items a) item (neighbours a item) 1%float).
    + eexists. reflexivity.
    + intros e He. apply before_packing_in_range.
      now apply (neighbours_in_index a item).
  - eexists. reflexivity.
  - eexists. reflexivity.
Qed.

(** X2.  Once [before_packing] has run, every object function the arranger
    can store (the three of [get_objfn] and the one of [preload]) yields a
    score for every candidate: no index of a spatial index is outside
    [m_items]; and [objfunc] returns the bounding box of the pile with the
    candidate, whatever the bin centre. *)
Theorem object_function_defined (a0 : AutoArranger) (merged_pile : MultiPolygon)
  (items remaining : ItemGroup) (f : ObjectFunction) (item : Item) :
  let a := before_packing a0 merged_pile items remaining in
  (forall bincenter, exists score,
     objfunc a item bincenter = Some (score, full_bb a item)) /\
  (exists score, call_object_function a f item = Some score).
Proof.
  intros a. split.
  - intros bincenter. apply objfunc_defined_after_before_packing.
  - unfold call_object_function.
    destruct f as [c | c | c | bb c];
      destruct (objfunc_defined_after_before_packing a0 merged_pile items remaining
                  item c) as [score Hscore];
      fold a in Hscore; rewrite Hscore.
    + eexists. reflexivity.
    + destruct (isBig (m_bin_area a) (Item_area item)); eexists; reflexivity.
    + eexists. reflexivity.
    + eexists. reflexivity.
Qed.

(** X3.  The bin centre pulls on big items only, and only while items
    remain: the centre [objfunc] is called with (that of the bin in
    [get_objfn], that of the bin's bounding box after [preload]) does not
    change its result when no item remains, nor for a candidate that is not
    big while the big index is not empty; and it never changes the box
    returned nor whether a result is returned. *)
Theorem objfunc_bincenter (a : AutoArranger) (item : Item) (c1 c2 : IntPoint) :
  (m_remaining a = [] -> objfunc a item c1 = objfunc a item c2) /\
  (isBig (m_bin_area a) (Item_area item) = false -> rtree_empty (m_rtree a) = false ->
   objfunc a item c1 = objfunc a item c2) /\
  option_map snd (objfunc a item c1) = option_map snd (objfunc a item c2).
Proof.
  split; [|split].
  - intros Hrem. unfold objfunc, compute_case. rewrite Hrem.
    now destruct (isBig _ _ || rtree_empty _).
  - intros Hsmall Hindex. unfold objfunc, compute_case. rewrite Hsmall, Hindex.
    reflexivity.
  - unfold objfunc.
    destruct (compute_case _ _); [|reflexivity|reflexivity].
    now destruct (alignment_loop _ _ _ _ _).
Qed.

(** A double minus itself is +0 or NaN: never above zero. *)
Lemma sub_diag_not_positive (x : double) :
  PrimFloat.ltb 0%float (x - x)%float = false.
Proof.
  rewrite FloatAxioms.ltb_spec, FloatAxioms.sub_spec.
  change (Prim2SF 0%float) with (S754_zero false).
  unfold SF64sub, SFsub.
  destruct (Prim2SF x) as [s | s | | s m e].
  - now destruct s.
  - now destruct s.
  - reflexivity.
  - cbv zeta. rewrite Z.sub_diag. reflexivity.
Qed.

(** X4.  [fixed_overfit] adds no penalty when the pile does not enlarge the
    bounding box of the bin (the box around both has the area of the bin's
    box): the score comes back unchanged, also when that area is not a
    finite number. *)
Theorem fixed_overfit_no_penalty (score : double) (pilebb binbb : Box) :
  Box_area (sl_boundingBox pilebb binbb) = Box_area binbb ->
  fixed_overfit (score, pilebb) binbb = score.
Proof.
  intros Harea. unfold fixed_overfit, dgt. cbn [fst snd].
  rewrite Harea, sub_diag_not_positive. reflexivity.
Qed.

End ObjectiveProperties.

Section ArrangeProperties.
Context {nest2d : Libnest2d} {slic3r : Libslic3r}.

Lemma existsb_combine_seq (A : Type) (f : A -> bool) (l : list A) : forall k,
  existsb (fun e : A * nat => f (fst e)) (combine l (seq k (length l))) = existsb f l.
Proof.
  induction l as [|x l IH]; intros k; [reflexivity|].
  simpl. now rewrite IH.
Qed.

Lemma existsb_of_map (A B : Type) (f : B -> bool) (g : A -> B) (l : list A) :
  existsb f (map g l) = existsb (fun x => f (g x)) l.
Proof.
  induction l as [|x l IH]; [reflexivity|]. simpl. now rewrite IH.
Qed.

(** X5.  The collision test of the warm start looks at bounding boxes only,
    and at every fixed item that was preloaded, whatever its size: after
    [preload] on a fresh arranger, [is_colliding] holds exactly when the box
    of the candidate meets the box of one of the fixed items; on a fresh
    arranger, whose index is empty, nothing collides. *)
Theorem is_colliding_after_preload (bin : Bin) (dist : Z)
  (progressind : option ProgressFn) (stopcond : option StopFn)
  (fixeditems : list Item) (item : Item) :
  is_colliding (fst (preload (AutoArranger_ctor bin dist progressind stopcond) fixeditems))
    item =
  existsb (fun f => bgi_intersects (Item_boundingBox item)
                      (Item_boundingBox (markAsFixed f))) fixeditems /\
  is_colliding (AutoArranger_ctor bin dist progressind stopcond) item = false.
Proof.
  split; [|reflexivity].
  rewrite is_colliding_spec.
  destruct (preload_spec (AutoArranger_ctor bin dist progressind stopcond) fixeditems)
    as (_ & Hrtree & _).
  rewrite Hrtree. cbn [m_rtree AutoArranger_ctor app].
  rewrite <- (length_map markAsFixed fixeditems).
  rewrite <- (length_map Item_boundingBox (map markAsFixed fixeditems)).
  rewrite (existsb_combine_seq Box (bgi_intersects (Item_boundingBox item))).
  rewrite map_map. apply existsb_of_map.
Qed.

(** The seated item of the warm start, as a list of at most one. *)
Lemma warm_start_parts (a : AutoArranger) (binbb : Box) (shapes : list Item) :
  exists seated,
    (length seated <= 1)%nat /\
    seated_events a binbb shapes = flat_map (apply_event 0) seated /\
    Forall (fun i => fixed_ i = true /\
                     exists q, In q shapes /\ i = markAsFixed (centered binbb q) /\
                               is_colliding a (centered binbb q) = false) seated /\
    Permutation (map part_identity shapes)
                (map part_identity (seated ++ left_movable a binbb shapes)) /\
    (seated = [] -> left_movable a binbb shapes = map (centered binbb) shapes).
Proof.
  unfold seated_events.
  induction shapes as [|itm rest IH]; simpl.
  - exists []. repeat split; auto.
  - destruct (is_colliding a (centered binbb itm)) eqn:Hcol.
    + destruct IH as (seated & Hlen & Hev & Hfix & Hperm & Hnone).
      exists seated. split; [exact Hlen|]. split; [exact Hev|]. split; [|split].
      * eapply Forall_impl; [|exact Hfix].
        intros i (Hf & q & Hq & Hi & Hc). split; [exact Hf|].
        exists q. split; [now right | now split].
      * rewrite map_app. simpl.
        apply Permutation_cons_app. rewrite <- map_app. exact Hperm.
      * intros Hs. now rewrite (Hnone Hs).
    + exists [markAsFixed (centered binbb itm)].
      split; [apply le_n|].
      split; [cbn [flat_map]; now rewrite app_nil_r|]. split; [|split].
      * constructor; [|constructor]. split; [reflexivity|].
        exists itm. split; [now left | now split].
      * simpl. apply Permutation_refl.
      * discriminate.
Qed.

(** X6.  The warm start neither loses nor duplicates a part: it seats at
    most one item, which is marked fixed, is one of the movable items moved
    to the centre and does not collide there; the seated item and the items
    left in the list are, up to their translation and fixed flag, a
    permutation of the items it was given; the only callback is that of the
    seated item, with a zero offset; and when nothing is seated every item
    is left in the list, centred. *)
Theorem warm_start_conserves_parts (arranger : AutoArranger) (binbb : Box)
  (shapes : list Item) (w : World) :
  exists seated,
    (length seated <= 1)%nat /\
    Forall (fun i => fixed_ i = true /\
                     exists q, In q shapes /\ i = markAsFixed (centered binbb q) /\
                               is_colliding arranger (centered binbb q) = false) seated /\
    trace (snd (warm_start arranger binbb shapes w)) =
      trace w ++ flat_map (apply_event 0) seated /\
    Permutation (map part_identity shapes)
                (map part_identity (seated ++ fst (warm_start arranger binbb shapes w))) /\
    (seated = [] -> fst (warm_start arranger binbb shapes w) = map (centered binbb) shapes).
Proof.
  destruct (warm_start_parts arranger binbb shapes)
    as (seated & Hlen & Hev & Hfix & Hperm & Hnone).
  exists seated. rewrite warm_start_spec. cbn [fst snd trace].
  rewrite Hev. repeat split; assumption.
Qed.

(** [process_arrangeable] appends the item built from the handle, and is
    undefined exactly on an empty path. *)
Lemma process_arrangeable_built (a : Arrangeable) (outp : list Item)
  (f : option ApplyFn) :
  match process_arrangeable a outp f with
  | Some r => exists it, r = outp ++ [it] /\ built_from f a it
  | None => oriented_path a = []
  end.
Proof.
  unfold process_arrangeable, built_from, oriented_path.
  destruct (get_arrange_polygon a) as [[p offs] rotation]. cbn [fst snd].
  destruct (Slic3rMultiPoint_to_ClipperPath _) as [|firstp path]; [reflexivity|].
  eexists. split; [reflexivity|]. cbn.
  repeat split. exists firstp, path. split; [reflexivity|]. reflexivity.
  now destruct offs.
Qed.

Lemma process_arrangables_built (arrangables : list Arrangeable) : forall acc,
  match process_arrangables arrangables acc with
  | Some r => exists items, r = acc ++ items /\
                Forall2 (fun a it => built_from (Some (ApplyResultTo a)) a it)
                        arrangables items
  | None => Exists (fun a => oriented_path a = []) arrangables
  end.
Proof.
  induction arrangables as [|a rest IH]; intros acc; simpl.
  - exists []. split; [now rewrite app_nil_r | constructor].
  - pose proof (process_arrangeable_built a acc (Some (ApplyResultTo a))) as Hone.
    destruct (process_arrangeable a acc (Some (ApplyResultTo a))) as [acc'|].
    + destruct Hone as (it & -> & Hit). specialize (IH (acc ++ [it])).
      destruct (process_arrangables rest (acc ++ [it])) as [r|].
      * destruct IH as (items & -> & Hitems). exists (it :: items).
        split; [now rewrite <- app_assoc | now constructor].
      * now apply Exists_cons_tl.
    + now apply Exists_cons_hd.
Qed.

Lemma process_excludes_built (excludes : list Arrangeable) : forall acc,
  match process_excludes excludes acc with
  | Some r => exists items, r = acc ++ items /\ Forall2 (built_from None) excludes items
  | None => Exists (fun a => oriented_path a = []) excludes
  end.
Proof.
  induction excludes as [|a rest IH]; intros acc; simpl.
  - exists []. split; [now rewrite app_nil_r | constructor].
  - pose proof (process_arrangeable_built a acc None) as Hone.
    destruct (process_arrangeable a acc None) as [acc'|].
    + destruct Hone as (it & -> & Hit). specialize (IH (acc ++ [it])).
      destruct (process_excludes rest (acc ++ [it])) as [r|].
      * destruct IH as (items & -> & Hitems). exists (it :: items).
        split; [now rewrite <- app_assoc | now constructor].
      * now apply Exists_cons_tl.
    + now apply Exists_cons_hd.
Qed.

(** X7.  [arrange] builds one item per handle, in the order of the
    handles: the item of a movable handle carries the lambda of that handle,
    the item of a fixed handle a null function; each has the handle's
    polygon as a closed contour (reversed when counter-clockwise, the first
    point repeated at the end), no hole, the handle's offset and rotation,
    and is not fixed.  The construction is undefined exactly when some
    handle gives an empty path. *)
Theorem items_follow_handles (arrangables excludes : list Arrangeable) :
  (forall items, process_arrangables arrangables [] = Some items ->
     Forall2 (fun a it => built_from (Some (ApplyResultTo a)) a it) arrangables items) /\
  (forall fixeditems, process_excludes excludes [] = Some fixeditems ->
     Forall2 (built_from None) excludes fixeditems) /\
  (process_arrangables arrangables [] = None <->
     Exists (fun a => oriented_path a = []) arrangables) /\
  (process_excludes excludes [] = None <->
     Exists (fun a => oriented_path a = []) excludes).
Proof.
  pose proof (process_arrangables_built arrangables []) as Hm.
  pose proof (process_excludes_built excludes []) as Hf.
  split; [|split; [|split]].
  - intros items Hitems. rewrite Hitems in Hm.
    destruct Hm as (items' & Heq & Hall). simpl in Heq. now subst.
  - intros fixeditems Hfixed. rewrite Hfixed in Hf.
    destruct Hf as (items' & Heq & Hall). simpl in Heq. now subst.
  - destruct (process_arrangables arrangables []) as [r|].
    + split; [discriminate|]. intros Hex. exfalso.
      destruct Hm as (items & _ & Hall).
      clear - Hex Hall. induction Hall as [|a it l l' Hb _ IH].
      * inversion Hex.
      * inversion Hex as [? ? Hempty | ? ? Htl]; subst; [|now apply IH].
        destruct Hb as (_ & (firstp & path & Hpath & _) & _). congruence.
    + now split.
  - destruct (process_excludes excludes []) as [r|].
    + split; [discriminate|]. intros Hex. exfalso.
      destruct Hf as (items & _ & Hall).
      clear - Hex Hall. induction Hall as [|a it l l' Hb _ IH].
      * inversion Hex.
      * inversion Hex as [? ? Hempty | ? ? Htl]; subst; [|now apply IH].
        destruct Hb as (_ & (firstp & path & Hpath & _) & _). congruence.
    + now split.
Qed.

(** X8.  What [_arrange] hands to the engine.  The engine runs once, on
    an arranger whose two indices are empty (the entries of [preload] are
    cleared by [operator()]) and whose packer holds the arranger's
    configuration: rotations restricted to 0, starting point CENTER, the
    progress and stop functions it was given.  When no fixed item is inside
    the bin the alignment is CENTER, the object function is that of
    [get_objfn] for the bin and the input is the movable items; otherwise
    the alignment is DONT_ALIGN and the object function is the
    [fixed_overfit] wrapper over the bounding box of the bin. *)
Theorem engine_configuration (N : Nester) shapes excludes bin minobjd prind stopfn w :
  exists arr inp,
    engine_runs (trace (snd (_arrange N shapes excludes bin minobjd prind stopfn w))) =
      engine_runs (trace w) ++ [(arr, inp)] /\
    m_rtree arr = [] /\ m_smallsrtree arr = [] /\ m_items arr = [] /\
    pck_conf (m_pck arr) = Some (m_pconf arr) /\
    rotations (m_pconf arr) = [0%float] /\
    starting_point (m_pconf arr) = CENTER /\
    pck_progress (m_pck arr) = prind /\ pck_stop (m_pck arr) = stopfn /\
    (erase_outside bin excludes = [] ->
     alignment (m_pconf arr) = CENTER /\
     object_function (m_pconf arr) = Some (get_objfn bin) /\
     inp = shapes) /\
    (erase_outside bin excludes <> [] ->
     alignment (m_pconf arr) = DONT_ALIGN /\
     object_function (m_pconf arr) =
       Some (ObjFn_preload (sl_boundingBox_bin bin) (Box_center (sl_boundingBox_bin bin)))).
Proof.
  rewrite _arrange_unfold. unfold _arrange_setup.
  destruct (erase_outside bin excludes) as [|e kept] eqn:Hkept.
  - eexists. eexists. rewrite AutoArranger_call_spec. cbn [snd trace].
    rewrite engine_runs_app. cbn [engine_runs flat_map].
    rewrite engine_runs_bins_events.
    split; [reflexivity|]. repeat split; now contradiction H.
  - eexists. eexists. rewrite AutoArranger_call_spec. cbn [snd trace].
    rewrite engine_runs_app. cbn [engine_runs flat_map].
    fold (engine_runs (trace w ++
            seated_events (fst (preload (AutoArranger_ctor bin minobjd prind stopfn)
                                  (e :: kept))) (sl_boundingBox_bin bin) shapes)).
    rewrite engine_runs_app, engine_runs_seated_events, app_nil_r.
    rewrite engine_runs_bins_events.
    split; [reflexivity|].
    unfold preload. rewrite preload_loop_spec. cbn.
    repeat split; discriminate.
Qed.

(** X11.  [arrange] without fixed items never preloads and never seats an
    item beforehand: on well-formed polygons its first effect is the run of
    the engine, on the freshly constructed arranger and on exactly the items
    built from the handles; then come the callbacks of the placed parts,
    all at offset 0; the answer is that of the final poll of the stop
    predicate. *)
Theorem arrange_movable_runs (N : Nester) inp min_d bedhint prfn stopfn items :
  process_arrangables inp [] = Some items ->
  arrange_movable N inp min_d bedhint prfn stopfn =
  (final_answer stopfn
     (snd (select_and_place N (AutoArranger_ctor (arrange_bin bedhint) min_d prfn stopfn)
             items 0)),
   mkWorld 0
     (snd (select_and_place N (AutoArranger_ctor (arrange_bin bedhint) min_d prfn stopfn)
             items 0))
     (NesterExecute (AutoArranger_ctor (arrange_bin bedhint) min_d prfn stopfn) items ::
      flat_map (bin_events 0 items)
        (fst (select_and_place N (AutoArranger_ctor (arrange_bin bedhint) min_d prfn stopfn)
                items 0)))).
Proof.
  intros Hitems. unfold arrange_movable.
  rewrite (arrange_spec N inp [] min_d bedhint prfn stopfn items [] Hitems eq_refl).
  rewrite bins_events_no_stride. reflexivity.
Qed.

Lemma left_movable_In (a : AutoArranger) (binbb : Box) (shapes : list Item) (i : Item) :
  In i (left_movable a binbb shapes) ->
  exists q, In q shapes /\ (i = q \/ i = centered binbb q).
Proof.
  induction shapes as [|itm rest IH]; simpl; [now intros []|].
  destruct (is_colliding a (centered binbb itm)).
  - intros [<- | Hin].
    + exists itm. split; [now left | now right].
    + destruct (IH Hin) as (q & Hq & Hi). exists q. split; [now right | exact Hi].
  - intros Hin. exists i. split; [now right | now left].
Qed.

(** X13.  In the input [arrange] hands to the engine, the items marked
    fixed are exactly those built from the fixed handles that lie inside
    the bin: they come last, carry no callback and keep the pose their
    handle gave; the items before them are movable items, not marked fixed,
    each with the callback of a movable handle. *)
Theorem engine_input_fixed_flags arrangables excludes min_obj_distance bedhint
  progressind stopcondition items fixeditems :
  process_arrangables arrangables [] = Some items ->
  process_excludes excludes [] = Some fixeditems ->
  exists movable fixed,
    engine_input items fixeditems min_obj_distance bedhint progressind stopcondition =
      movable ++ fixed /\
    Forall (fun it => fixed_ it = false /\
                      exists h, applyfn_ it = Some (ApplyResultTo h) /\ In h arrangables)
           movable /\
    Forall (fun it => fixed_ it = true /\ applyfn_ it = None) fixed /\
    map translation_ fixed =
      map translation_ (erase_outside (arrange_bin bedhint) fixeditems) /\
    map rotation_ fixed =
      map rotation_ (erase_outside (arrange_bin bedhint) fixeditems).
Proof.
  intros Hitems Hfixed.
  pose proof (process_arrangables_built arrangables []) as Hm. rewrite Hitems in Hm.
  destruct Hm as (items' & Heq & Hbuilt). simpl in Heq. subst items'.
  assert (Hmov : Forall (fun it => fixed_ it = false /\
                   exists h, applyfn_ it = Some (ApplyResultTo h) /\ In h arrangables) items).
  { clear Hitems. induction Hbuilt as [|a it l l' Hb _ IH]; constructor.
    - destruct Hb as (Hf & _ & _ & _ & _ & Hfix). split; [exact Hfix|].
      exists a. split; [exact Hf | now left].
    - eapply Forall_impl; [|exact IH]. intros it' (Hfx & h & Hh & Hin).
      split; [exact Hfx|]. exists h. split; [exact Hh | now right]. }
  assert (Hnull : Forall (fun it => applyfn_ it = None) fixeditems).
  { apply (process_excludes_null _ _ _ Hfixed). constructor. }
  assert (Hkept : Forall (fun it => applyfn_ it = None)
                    (erase_outside (arrange_bin bedhint) fixeditems)).
  { rewrite Forall_forall in *. intros it Hit. apply Hnull.
    now apply erase_outside_spec in Hit. }
  unfold engine_input, arrange_setup, _arrange_setup.
  destruct (erase_outside (arrange_bin bedhint) fixeditems) as [|e kept] eqn:Hk.
  - exists items, []. cbn [fst snd]. rewrite app_nil_r. repeat split; auto.
  - eexists. eexists. cbn [fst snd]. split; [reflexivity|]. split; [|split; [|split]].
    + rewrite Forall_forall in *. intros i Hi.
      apply left_movable_In in Hi. destruct Hi as (q & Hq & [-> | ->]).
      * now apply Hmov.
      * exact (Hmov q Hq).
    + rewrite Forall_forall in *. intros i Hi. apply in_map_iff in Hi.
      destruct Hi as (q & <- & Hq). split; [reflexivity | exact (Hkept q Hq)].
    + rewrite map_map. reflexivity.
    + rewrite map_map. reflexivity.
Qed.

End ArrangeProperties.

Section ScalarProperties.

Local Open Scope Z_scope.

(** X9.  [stride_padding] on the widths for which [w + w / 5] fits
    [coord_t], those up to 7686143364045646506: the result is at least the
    width and at most the largest [coord_t], five times it lies between
    [6 w - 4] and [6 w], it grows strictly with the width, and on the
    negated width it is the negated result. *)
Theorem stride_padding_bounds (w : Z) :
  0 <= w <= 7686143364045646506 ->
  w <= stride_padding w <= 2 ^ 63 - 1 /\
  6 * w - 4 <= 5 * stride_padding w <= 6 * w /\
  (forall w', w < w' <= 7686143364045646506 ->
     stride_padding w < stride_padding w' <= 2 ^ 63 - 1) /\
  stride_padding (- w) = - stride_padding w /\
  - (2 ^ 63) <= stride_padding (- w).
Proof.
  intros Hw. unfold stride_padding.
  change (2 ^ 63 - 1) with 9223372036854775807.
  change (- (2 ^ 63)) with (-9223372036854775808).
  assert (Hneg : - w + Z.quot (- w) 5 = - (w + Z.quot w 5))
    by (rewrite Z.quot_opp_l by lia; lia).
  repeat split.
  - Z.quot_rem_to_equations. lia.
  - Z.quot_rem_to_equations. lia.
  - Z.quot_rem_to_equations. lia.
  - Z.quot_rem_to_equations. lia.
  - Z.quot_rem_to_equations. lia.
  - Z.quot_rem_to_equations. lia.
  - exact Hneg.
  - rewrite Hneg. Z.quot_rem_to_equations. lia.
Qed.

(** X10.  The halving [md = (md % 2) ? md / 2 + 1 : md / 2] never goes
    below half of [md]; it is the ceiling of the half when [md] is even or
    not negative, and one above the ceiling when [md] is negative and odd,
    where C++'s [/] truncates toward zero. *)
Theorem halve_up_bounds (md : Z) :
  md <= 2 * halve_up md <= md + 3 /\
  (0 <= md \/ Z.rem md 2 = 0 -> 2 * halve_up md <= md + 1) /\
  (md < 0 -> Z.rem md 2 <> 0 -> 2 * halve_up md = md + 3).
Proof.
  unfold halve_up.
  destruct (Z.eqb_spec (Z.rem md 2) 0) as [H0 | H0];
    repeat split; intros; Z.quot_rem_to_equations; lia.
Qed.

End ScalarProperties.

Section BedShapePayload.
Context {slic3r : Libslic3r}.

(** X12.  [bedShape] never answers Infinite or Unknown, and the hint
    carries the data of its type: a Box hint the bounding box of the
    outline, a Circle hint the centre of the bounding box with the mean
    distance of the vertices as radius, which is then a number, an
    Irregular hint the outline itself. *)
Theorem bedShape_payload (bed : Polyline) :
  bed <> [] ->
  exists hint, bedShape bed = Some hint /\
    match type hint with
    | BOX => box (shape hint) = bounding_box bed
    | CIRCLE =>
        circ (shape hint) =
          mkCircleBed (BoundingBox_center (bounding_box bed))
                      (avg_dist (bounding_box bed) bed) /\
        isnan (avg_dist (bounding_box bed) bed) = false
    | IRREGULAR => polygon (shape hint) = bed
    | INFINITE | UNKNOWN => False
    end.
Proof.
  intros Hne. destruct bed as [|front rest]; [contradiction|].
  unfold bedShape.
  destruct (poly_area (front :: rest)) as [parea|] eqn:Harea; [|discriminate].
  destruct (PrimFloat.ltb _ _).
  - eexists. split; [reflexivity|]. cbn. reflexivity.
  - destruct (CircleBed_bool (isCircle (bounding_box (front :: rest)) (front :: rest)))
      eqn:Hbool.
    + eexists. split; [reflexivity|]. cbn.
      unfold isCircle in *.
      destruct (existsb _ _); [discriminate Hbool|].
      unfold CircleBed_bool in Hbool. cbn in Hbool.
      apply negb_true_iff in Hbool. auto.
    + eexists. split; [reflexivity|]. cbn. reflexivity.
Qed.

End BedShapePayload.

Section ConcreteProperties.
Local Existing Instances Reference.nest2d Reference.slic3r.

Local Open Scope Z_scope.

(** The bound of X3 is met: for a big candidate while an item remains, two
    centres give two scores. *)
Example objfunc_bincenter_big_item :
  objfunc packed_scene candidate (mkPoint (mm 100) (mm 100)) =
    Some (0.16113708498984763%float,
          mkBox (mkPoint (mm 80) (mm 80)) (mkPoint (mm 160) (mm 120))) /\
  option_map fst (objfunc packed_scene candidate (mkPoint 0 0)) <>
    Some 0.16113708498984763%float /\
  objfunc mixed_scene candidate (mkPoint (mm 100) (mm 100)) =
    objfunc mixed_scene candidate (mkPoint 0 0) /\
  objfunc packed_scene small_candidate (mkPoint (mm 100) (mm 100)) =
    objfunc packed_scene small_candidate (mkPoint 0 0).
Proof.
  split; [vm_compute; reflexivity|]. split; [vm_compute; discriminate|].
  split; vm_compute; reflexivity.
Qed.

Lemma fixed_overfit_witness :
  Box_area (sl_boundingBox pile_box bed200) = Box_area bed200 /\
  fixed_overfit (0.25%float, pile_box) bed200 = 0.25%float.
Proof.
  assert (Harea : Box_area (sl_boundingBox pile_box bed200) = Box_area bed200)
    by (vm_compute; reflexivity).
  split; [exact Harea|]. exact (fixed_overfit_no_penalty 0.25%float pile_box bed200 Harea).
Defined.

Lemma stride_padding_witness :
  0 <= mm 200 <= 7686143364045646506 /\
  stride_padding (mm 200) = mm 240 /\
  mm 200 <= stride_padding (mm 200) <= 2 ^ 63 - 1 /\
  6 * mm 200 - 4 <= 5 * stride_padding (mm 200) <= 6 * mm 200.
Proof.
  assert (Hw : 0 <= mm 200 <= 7686143364045646506)
    by (split; vm_compute; discriminate).
  destruct (stride_padding_bounds (mm 200) Hw) as (Hge & Hfive & _).
  split; [exact Hw|]. split; [reflexivity|]. split; [exact Hge | exact Hfive].
Defined.

(** The bound on the width is the last one for which the sum fits
    [coord_t]: at it the sum is the largest [coord_t], one further it is
    above. *)
Example stride_padding_largest_width :
  stride_padding 7686143364045646506 = 2 ^ 63 - 1 /\
  stride_padding 7686143364045646507 = 2 ^ 63.
Proof. split; vm_compute; reflexivity. Qed.

Lemma arrange_movable_witness :
  process_arrangables two_hosts [] = Some two_items /\
  fst (arrange_movable one_bin two_hosts 6000000 hint200 None (Some never_stop)) =
    Returned true /\
  engine_runs (trace (snd (arrange_movable one_bin two_hosts 6000000 hint200 None
                             (Some never_stop)))) =
    [(AutoArranger_ctor (arrange_bin hint200) 6000000 None (Some never_stop), two_items)] /\
  applied_results (trace (snd (arrange_movable one_bin two_hosts 6000000 hint200 None
                                 (Some never_stop)))) =
    [(1%nat, 10%float, 20%float); (2%nat, 30%float, 20%float)].
Proof.
  pose proof two_hosts_processed as H1.
  split; [exact H1|].
  rewrite (arrange_movable_runs one_bin two_hosts 6000000 hint200 None (Some never_stop)
             two_items H1).
  repeat split; vm_compute; reflexivity.
Defined.

Lemma bedShape_payload_witness :
  outline_L <> [] /\
  exists hint, bedShape outline_L = Some hint /\
    type hint = IRREGULAR /\ polygon (shape hint) = outline_L.
Proof.
  split; [discriminate|].
  destruct (bedShape_payload outline_L) as (hint & Hhint & Hdata); [discriminate|].
  exists hint. split; [exact Hhint|].
  assert (Htype : type hint = IRREGULAR).
  { assert (Hev : option_map type (bedShape outline_L) = Some IRREGULAR)
      by (vm_compute; reflexivity).
    rewrite Hhint in Hev. now injection Hev. }
  rewrite Htype in Hdata. split; [exact Htype | exact Hdata].
Defined.

Lemma engine_input_fixed_flags_witness :
  process_arrangables two_hosts [] = Some two_items /\
  process_excludes [fixed_host] [] = Some [host_item None 30 110 85] /\
  exists movable fixed,
    engine_input two_items [host_item None 30 110 85] 6000000 hint200 None (Some never_stop) =
      movable ++ fixed /\
    Forall (fun it => fixed_ it = true /\ applyfn_ it = None) fixed /\
    map translation_ fixed = [mkPoint (mm 110) (mm 85)].
Proof.
  pose proof two_hosts_processed as H1.
  assert (H2 : process_excludes [fixed_host] [] = Some [host_item None 30 110 85])
    by (vm_compute; reflexivity).
  split; [exact H1|]. split; [exact H2|].
  destruct (engine_input_fixed_flags two_hosts [fixed_host] 6000000 hint200 None
              (Some never_stop) two_items [host_item None 30 110 85] H1 H2)
    as (movable & fixed & Heq & _ & Hfix & Htr & _).
  exists movable, fixed. split; [exact Heq|]. split; [exact Hfix|].
  rewrite Htr. vm_compute. reflexivity.
Defined.

(** The halving at a clearance below the scaled epsilon: [md] is -99 and
    the halved value is -48, one above the ceiling of -49.5. *)
Example halved_distance_negative_odd :
  to_coord (of_coord 1 - SCALED_EPSILON)%float = -99 /\ halved_distance 1 = -48.
Proof. split; vm_compute; reflexivity. Qed.

End ConcreteProperties.
